(** * The Agora gateway: fused delegate listing and delegate statements

    A shallow embedding of the resolver map built by [makeGatewaySchema]
    (packages/backend/src/schema.ts): the [wrappedDelegates] listing with its
    selection-set extractor and fused query builder, the
    [WrappedDelegate.delegate] resolver and the [createNewDelegateStatement]
    mutation over the module-level [delegateStatements] map.

    The GraphQL syntax tree, the JavaScript [Map] and the remote schema are
    the libraries' own; they are modelled here as far as the resolvers look
    at them.

    Further on: the resolvers below [address], [ResolvedName.name] and
    [DelegateStatement.openToSponsoringProposals], the worker's [fetch] with
    its memoised schema promise (packages/backend/src/worker.ts), and the
    state of the top-issues form section. *)

From stdpp Require Import base option list strings gmap.

Set Warnings "-register-all".
Open Scope string_scope.

(** ** GraphQL syntax trees, as graphql-js parses them *)

Module Ast.

Inductive OperationTypeNode := QUERY | MUTATION | SUBSCRIPTION.

Inductive ValueNode :=
| IntValue (value : Z)
| StringValue (value : string)
| BooleanValue (value : bool)
| EnumValue (value : string)
| VariableRef (name : string).

Record ArgumentNode := Argument { arg_name : string; arg_value : ValueNode }.

Record DirectiveNode :=
  Directive { dir_name : string; dir_arguments : list ArgumentNode }.

(** [SelectionNode = FieldNode | FragmentSpreadNode | InlineFragmentNode].
    A field without braces has no [selectionSet] at all. *)
Inductive SelectionNode :=
| FieldSel (field : FieldNode)
| FragmentSpread (name : string) (directives : list DirectiveNode)
| InlineFragment (typeCondition : option string)
    (directives : list DirectiveNode) (selections : list SelectionNode)
with FieldNode :=
| Field (alias : option string) (name : string)
    (arguments : list ArgumentNode) (directives : list DirectiveNode)
    (selectionSet : option (list SelectionNode)).

Definition field_name (f : FieldNode) : string :=
  match f with Field _ n _ _ _ => n end.

Definition field_alias (f : FieldNode) : option string :=
  match f with Field a _ _ _ _ => a end.

Definition field_arguments (f : FieldNode) : list ArgumentNode :=
  match f with Field _ _ args _ _ => args end.

Definition field_selectionSet (f : FieldNode) : option (list SelectionNode) :=
  match f with Field _ _ _ _ s => s end.

Record OperationDefinitionNode := OperationDefinition {
  op_operation : OperationTypeNode;
  op_name : option string;
  op_directives : list DirectiveNode;
  op_selections : list SelectionNode }.

Record FragmentDefinitionNode := FragmentDefinition {
  frag_name : string;
  frag_typeCondition : string;
  frag_directives : list DirectiveNode;
  frag_selections : list SelectionNode }.

Inductive DefinitionNode :=
| OperationDef (o : OperationDefinitionNode)
| FragmentDef (f : FragmentDefinitionNode).

Record DocumentNode := Document { definitions : list DefinitionNode }.

(** [visit(document, { [Kind.FRAGMENT_DEFINITION](node) {...} })]: the
    visitor is entered at every fragment definition and its return value
    replaces the node; fragment definitions only occur at the top of a
    document, so nothing below a definition is touched. *)
Definition visitFragmentDefinitions
    (enter : FragmentDefinitionNode → FragmentDefinitionNode)
    (document : DocumentNode) : DocumentNode :=
  Document
    ((λ d, match d with
           | FragmentDef f => FragmentDef (enter f)
           | OperationDef o => OperationDef o
           end) <$> definitions document).

(** The selections of the fragment definitions called [name]. *)
Definition fragmentSelections (name : string) (document : DocumentNode)
    : list (list SelectionNode) :=
  omap (λ d, match d with
             | FragmentDef f =>
                 if decide (frag_name f = name)
                 then Some (frag_selections f) else None
             | OperationDef _ => None
             end) (definitions document).

(** A plain leaf field, as in [{ id }]. *)
Definition leaf (name : string) : SelectionNode :=
  FieldSel (Field None name [] [] None).

End Ast.
Import Ast.

(** ** JavaScript [Map] with string keys

    A [Map] iterates in insertion order and [set] on a key that is already
    there keeps the key's place, so the map is a list of entries. *)

Module JsMap.
Section ops.
Context {V : Type}.

Fixpoint set (k : string) (v : V) (m : list (string * V))
    : list (string * V) :=
  match m with
  | [] => [(k, v)]
  | (k', v') :: m' =>
      if decide (k' = k) then (k, v) :: m' else (k', v') :: set k v m'
  end.

Fixpoint get (k : string) (m : list (string * V)) : option V :=
  match m with
  | [] => None
  | (k', v') :: m' => if decide (k' = k) then Some v' else get k m'
  end.

Definition keys (m : list (string * V)) : list string := m.*1.

(** What every [Map] satisfies: no key twice. *)
Definition wf (m : list (string * V)) : Prop := NoDup (keys m).
End ops.
End JsMap.

(** ** Values the resolvers pass around *)

Record ProposalRef := { proposal_id : string }.

Record TopIssue := { issue_type : string; issue_value : string }.

(** The [values] of a validated form, as the seeded entry spells them. *)
Record FormValues := {
  delegateStatement : string;
  openToSponsoringProposals : option string;
  twitter : string;
  discord : string;
  mostValuableProposals : list ProposalRef;
  leastValuableProposals : list ProposalRef;
  topIssues : list TopIssue;
  for_ : string }.

(** [ReturnType<typeof validateForm>]. *)
Record ValidatedForm := { form_address : string; form_values : FormValues }.

(** A row of [data.delegates]: its [id] and whatever else was selected. *)
Record RemoteDelegate := {
  id : string;
  otherFields : list (string * string) }.

Record GraphQLError := { message : string }.

(** [ExecutionResult]: [errors] is only there when something failed. *)
Record ExecutionResult := {
  errors : option (list GraphQLError);
  data : option (list RemoteDelegate) }.

Record WrappedDelegate := {
  address : string;
  underlyingDelegate : option RemoteDelegate }.

Record GraphQLResolveInfo := {
  fieldName : string;
  fieldNodes : list FieldNode }.

(** The arguments of a [delegateToSchema] call (the schema is always the
    nouns subgraph). *)
Record DelegationRequest := {
  del_operation : OperationTypeNode;
  del_fieldName : string;
  del_args : list (string * string);
  del_info : GraphQLResolveInfo }.

(** What a resolver can throw. *)
Inductive Thrown :=
| TypeError
| AggregateError (errs : list GraphQLError) (msg : string)
| ValidationError (reason : string).

Inductive Completion (A : Type) :=
| Return (a : A)
| Throw (e : Thrown).
Arguments Return {A} a.
Arguments Throw {A} e.

(** Values of a resolver's result object. *)
Inductive JsValue :=
| JsString (s : string)
| JsFormValues (v : FormValues).

(** ** What the gateway is handed from outside *)

(** The remote schema: printing and running a document, and delegating one
    field to it. *)
Class RemoteSchema := {
  print : DocumentNode → string;
  graphql : string → ExecutionResult;
  delegateToSchema : DelegationRequest → Completion (option RemoteDelegate) }.

(** [validateForm] of ./formSchema: a validated form, or it throws. *)
Class FormSchema := {
  validateForm : string → string → Completion ValidatedForm }.

(** ** Resolvers: state, effects and exceptions

    The module-level [delegateStatements] map outlives a request and is
    shared by all resolvers; calls into the remote schema are recorded in
    the order they are made. *)

Inductive RemoteCall :=
| Executed (source : string)
| Delegated (request : DelegationRequest).

Record World := {
  delegateStatements : list (string * ValidatedForm);
  remoteCalls : list RemoteCall }.

Definition Resolver (A : Type) : Type := World → Completion A * World.

Definition ret {A} (a : A) : Resolver A := λ w, (Return a, w).

Definition throw {A} (e : Thrown) : Resolver A := λ w, (Throw e, w).

Definition bind {A B} (m : Resolver A) (k : A → Resolver B) : Resolver B :=
  λ w, match m w with
       | (Return a, w') => k a w'
       | (Throw e, w') => (Throw e, w')
       end.

Notation "x <- m ;; k" := (bind m (λ x, k))
  (at level 100, m at next level, right associativity).

Definition lift {A} (c : Completion A) : Resolver A := λ w, (c, w).

Definition readStatements : Resolver (list (string * ValidatedForm)) :=
  λ w, (Return (delegateStatements w), w).

Definition setStatement (k : string) (v : ValidatedForm) : Resolver unit :=
  λ w, (Return tt,
        {| delegateStatements := JsMap.set k v (delegateStatements w);
           remoteCalls := remoteCalls w |}).

Definition record (c : RemoteCall) : Resolver unit :=
  λ w, (Return tt,
        {| delegateStatements := delegateStatements w;
           remoteCalls := (remoteCalls w ++ [c])%list |}).

(** The map as the module creates it. *)
Definition nouncil : string := "0x2573c60a6d127755aa2dc85e342f7da2378a0cc5".

Definition initialDelegateStatements : list (string * ValidatedForm) :=
  [ (nouncil,
     {| form_address := nouncil;
        form_values := {|
          delegateStatement :=
            "We are a group of Nounish builders and representatives from launched Nounish NFT extension projects, coming together to participate in Nouns DAO governance.";
          openToSponsoringProposals := None;
          twitter := "nouncil";
          discord := "";
          mostValuableProposals :=
            [ {| proposal_id := "121" |}; {| proposal_id := "87" |};
              {| proposal_id := "77" |} ];
          leastValuableProposals :=
            [ {| proposal_id := "127" |}; {| proposal_id := "122" |};
              {| proposal_id := "74" |} ];
          topIssues :=
            [ {| issue_type := "proliferation";
                 issue_value :=
                   "Proliferation, above revenue generation, should be the number one focus." |};
              {| issue_type := "treasury";
                 issue_value :=
                   "We believe that active management of the treasury is a distraction." |} ];
          for_ := "nouns-agora" |} |}) ].

Definition initialWorld : World :=
  {| delegateStatements := initialDelegateStatements; remoteCalls := [] |}.

(** ** Query.wrappedDelegates *)

(** [field.kind === "Field" && field.name.value === "delegate"]. *)
Definition isDelegateField (field : SelectionNode) : list FieldNode :=
  match field with
  | FieldSel f => if decide (field_name f = "delegate") then [f] else []
  | _ => []
  end.

(** [node.kind === "Field" && node.name.value !== "id"]. *)
Definition isExtraSelection (node : SelectionNode) : bool :=
  match node with
  | FieldSel f => bool_decide (field_name f ≠ "id")
  | _ => false
  end.

(** Reading [.selectionSet.selections] of a field without braces throws. *)
Definition selectionsOf (f : FieldNode) : Completion (list SelectionNode) :=
  match field_selectionSet f with
  | Some selections => Return selections
  | None => Throw TypeError
  end.

Definition getSelectionSetFromDelegateField (info : GraphQLResolveInfo)
    : Completion (list SelectionNode) :=
  match List.find (λ node, bool_decide (field_name node = fieldName info))
                  (fieldNodes info) with
  | None => Return []
  | Some currentFieldNode =>
      match selectionsOf currentFieldNode with
      | Throw e => Throw e
      | Return selections =>
          match head (selections ≫= isDelegateField) with
          | None => Return []
          | Some delegateFieldNode =>
              match selectionsOf delegateFieldNode with
              | Throw e => Throw e
              | Return nested =>
                  Return (filter (λ node, isExtraSelection node) nested)
              end
          end
      end
  end.

(** The document of the [parse] call. *)
Definition fusedDelegateQueryText : DocumentNode :=
  Document
    [ OperationDef
        (OperationDefinition QUERY (Some "FusedDelegateQuery") []
           [ FieldSel
               (Field None "delegates"
                  [ Argument "first" (IntValue 1000);
                    Argument "orderBy" (EnumValue "delegatedVotesRaw");
                    Argument "orderDirection" (EnumValue "desc") ]
                  []
                  (Some [ FragmentSpread "DelegateFields" [] ])) ]);
      FragmentDef
        (FragmentDefinition "DelegateFields" "Delegate" [] [ leaf "id" ]) ].

Definition buildFusedDelegateQuery
    (delegateFieldSelectionSet : list SelectionNode) : DocumentNode :=
  visitFragmentDefinitions
    (λ node,
       if decide (frag_name node = "DelegateFields")
       then FragmentDefinition (frag_name node) (frag_typeCondition node)
              (frag_directives node)
              (frag_selections node ++ delegateFieldSelectionSet)%list
       else node)
    fusedDelegateQueryText.

(** [errors.map((error) => error.message).join(", \n")]. *)
Definition joinMessages (errs : list GraphQLError) : string :=
  String.concat (", " +:+ String (Ascii.ascii_of_nat 10) "") (message <$> errs).

(** [(delegate) => ({ address: delegate.id, underlyingDelegate: delegate })] *)
Definition fromRemoteDelegate (delegate : RemoteDelegate) : WrappedDelegate :=
  {| address := id delegate; underlyingDelegate := Some delegate |}.

(** [(address) => ({ address })] *)
Definition fromDelegateStatement (a : string) : WrappedDelegate :=
  {| address := a; underlyingDelegate := None |}.

Section resolvers.
Context `{RemoteSchema} `{FormSchema}.

Definition wrappedDelegates (info : GraphQLResolveInfo)
    : Resolver (list WrappedDelegate) :=
  delegateFieldSelectionSet <- lift (getSelectionSetFromDelegateField info) ;;
  let fusedDelegateQuery := buildFusedDelegateQuery delegateFieldSelectionSet in
  statements <- readStatements ;;
  let fromDelegateStatements :=
    fromDelegateStatement <$> JsMap.keys statements in
  let source := print fusedDelegateQuery in
  _ <- record (Executed source) ;;
  let executionResult := graphql source in
  match errors executionResult with
  | Some errs => throw (AggregateError errs (joinMessages errs))
  | None =>
      match data executionResult with
      | None => throw TypeError
      | Some delegates =>
          let remoteDelegates := fromRemoteDelegate <$> delegates in
          let remoteDelegatesSet : gset string :=
            list_to_set (address <$> remoteDelegates) in
          ret (remoteDelegates ++
               filter (λ it, address it ∉ remoteDelegatesSet)
                      fromDelegateStatements)%list
      end
  end.

(** ** WrappedDelegate.delegate *)

Definition WrappedDelegate_delegate (parent : WrappedDelegate)
    (info : GraphQLResolveInfo) : Resolver (option RemoteDelegate) :=
  match underlyingDelegate parent with
  | Some underlying => ret (Some underlying)
  | None =>
      let request :=
        {| del_operation := QUERY;
           del_fieldName := "delegate";
           del_args := [("id", address parent)];
           del_info := info |} in
      _ <- record (Delegated request) ;;
      lift (delegateToSchema request)
  end.

(** ** WrappedDelegate.statement *)

Definition WrappedDelegate_statement (parent : WrappedDelegate)
    : Resolver (option ValidatedForm) :=
  statements <- readStatements ;;
  ret (JsMap.get (address parent) statements).

(** ** Mutation.createNewDelegateStatement *)

Definition createNewDelegateStatement
    (statementBodyJson statementBodyJsonSignature : string)
    : Resolver (list (string * JsValue)) :=
  validated <- lift (validateForm statementBodyJson
                      statementBodyJsonSignature) ;;
  _ <- setStatement (form_address validated) validated ;;
  ret [("address", JsString (form_address validated))].

End resolvers.

(** ** Sample requests and collaborators *)

Module Samples.

(** [wrappedDelegates { id delegate { id delegatedVotes ...Profile } }] *)
Definition withSpread : GraphQLResolveInfo :=
  {| fieldName := "wrappedDelegates";
     fieldNodes :=
       [ Field None "wrappedDelegates" [] []
           (Some [ leaf "id";
                   FieldSel
                     (Field None "delegate" [] []
                        (Some [ leaf "id"; leaf "delegatedVotes";
                                FragmentSpread "Profile" [] ])) ]) ] |}.

(** [wrappedDelegates { delegate { delegatedVotes } delegate { nounsRepresented { id } } }] *)
Definition twoDelegateFields : GraphQLResolveInfo :=
  {| fieldName := "wrappedDelegates";
     fieldNodes :=
       [ Field None "wrappedDelegates" [] []
           (Some [ FieldSel
                     (Field None "delegate" [] []
                        (Some [ leaf "delegatedVotes" ]));
                   FieldSel
                     (Field None "delegate" [] []
                        (Some [ FieldSel
                                  (Field None "nounsRepresented" [] []
                                     (Some [ leaf "id" ])) ])) ]) ] |}.

(** [wrappedDelegates { id delegate { id delegatedVotes } }] *)
Definition plain : GraphQLResolveInfo :=
  {| fieldName := "wrappedDelegates";
     fieldNodes :=
       [ Field None "wrappedDelegates" [] []
           (Some [ leaf "id";
                   FieldSel
                     (Field None "delegate" [] []
                        (Some [ leaf "id"; leaf "delegatedVotes" ])) ]) ] |}.


(** [wrappedDelegates { delegate { delegatedVotes id delegatedVotes ...Profile } }] *)
Definition withRepeatedField : GraphQLResolveInfo :=
  {| fieldName := "wrappedDelegates";
     fieldNodes :=
       [ Field None "wrappedDelegates" [] []
           (Some [ FieldSel
                     (Field None "delegate" [] []
                        (Some [ leaf "delegatedVotes"; leaf "id";
                                leaf "delegatedVotes";
                                FragmentSpread "Profile" [] ])) ]) ] |}.

(** [wrappedDelegates { id }] *)
Definition idOnly : GraphQLResolveInfo :=
  {| fieldName := "wrappedDelegates";
     fieldNodes :=
       [ Field None "wrappedDelegates" [] [] (Some [ leaf "id" ]) ] |}.

Definition alice : string := "0x00000000000000000000000000000000000a11ce".
Definition bob : string := "0x0000000000000000000000000000000000000b0b".

Definition row (a votes : string) : RemoteDelegate :=
  {| id := a; otherFields := [("delegatedVotes", votes)] |}.

(** A remote schema that answers every query with [result]. *)
Definition remoteAnswering (result : ExecutionResult) : RemoteSchema :=
  {| print := λ _, "query FusedDelegateQuery";
     graphql := λ _, result;
     delegateToSchema := λ _, Return None |}.

Definition twoRows : ExecutionResult :=
  {| errors := None; data := Some [ row bob "12"; row nouncil "7" ] |}.

Definition oneRow : ExecutionResult :=
  {| errors := None; data := Some [ row bob "12" ] |}.

Definition failed : ExecutionResult :=
  {| errors := Some [ {| message := "timeout" |};
                      {| message := "bad gateway" |} ];
     data := None |}.

Definition someValues (text : string) : FormValues :=
  {| delegateStatement := text;
     openToSponsoringProposals := Some "yes";
     twitter := ""; discord := "";
     mostValuableProposals := []; leastValuableProposals := [];
     topIssues := []; for_ := "nouns-agora" |}.

(** A form schema that accepts a body of the shape [address:text] signed
    with the address itself, and rejects everything else. *)
Definition formsSignedByAddress : FormSchema :=
  {| validateForm := λ body signature,
       if decide (String.length signature = 42
                  ∧ String.substring 0 42 body = signature)
       then Return {| form_address := signature;
                      form_values :=
                        someValues (String.substring 43 (String.length body) body) |}
       else Throw (ValidationError "signature does not match address") |}.

End Samples.

(** ** What the claims speak of *)

(** The first of [nodes] called [name]. *)
Definition firstNode (name : string) (nodes : list FieldNode)
    (f : FieldNode) : Prop :=
  ∃ before after,
    nodes = (before ++ f :: after)%list ∧ field_name f = name ∧
    ∀ g, g ∈ before → field_name g ≠ name.

(** The first field selection of [selections] called [name]. *)
Definition firstField (name : string) (selections : list SelectionNode)
    (f : FieldNode) : Prop :=
  ∃ before after,
    selections = (before ++ FieldSel f :: after)%list ∧ field_name f = name ∧
    ∀ g, FieldSel g ∈ before → field_name g ≠ name.

(** What a request asks of the nested [delegate] field: nothing when the
    current field or the [delegate] field below it is absent, and otherwise
    the selections of the first [delegate] field of the first node of the
    current field. *)
Inductive Requested (info : GraphQLResolveInfo)
    : option (list SelectionNode) → Prop :=
| Requested_no_root :
    (∀ n, n ∈ fieldNodes info → field_name n ≠ fieldName info) →
    Requested info None
| Requested_no_delegate root selections :
    firstNode (fieldName info) (fieldNodes info) root →
    field_selectionSet root = Some selections →
    (∀ g, FieldSel g ∈ selections → field_name g ≠ "delegate") →
    Requested info None
| Requested_delegate root selections delegateField nested :
    firstNode (fieldName info) (fieldNodes info) root →
    field_selectionSet root = Some selections →
    firstField "delegate" selections delegateField →
    field_selectionSet delegateField = Some nested →
    Requested info (Some nested).

(** A selection for the identity field. *)
Definition isIdentitySelection (node : SelectionNode) : bool :=
  match node with
  | FieldSel f => bool_decide (field_name f = "id")
  | _ => false
  end.

(** The extractor as the specification words it: the nested selections
    minus any selection for the identity field. *)
Definition minusIdentity (nested : list SelectionNode) : list SelectionNode :=
  filter (λ node, ¬ isIdentitySelection node) nested.

(** A selection that is a field not named [id]. *)
Definition fieldOtherThanId (node : SelectionNode) : Prop :=
  ∃ f, node = FieldSel f ∧ field_name f ≠ "id".

#[global] Instance fieldOtherThanId_dec node : Decision (fieldOtherThanId node).
Proof.
  destruct node as [f|name directives|typeCondition directives selections].
  - destruct (decide (field_name f ≠ "id")) as [Hname|Hname].
    + left. by exists f.
    + right. intros (g & [= <-] & Hg). by apply Hname.
  - right. by intros (g & Hg & _).
  - right. by intros (g & Hg & _).
Defined.

(** The result selection of the fused query: what its [DelegateFields]
    fragment selects. *)
Definition fusedResultSelection (document : DocumentNode)
    : list SelectionNode :=
  concat (fragmentSelections "DelegateFields" document).

(** The entries of a listing that stand for address [a]. *)
Definition entriesFor (a : string) (listing : list WrappedDelegate)
    : list WrappedDelegate :=
  filter (λ it, address it = a) listing.

(** ** The other resolvers of the gateway *)

(** [String.prototype.toLowerCase] on strings of ASCII characters, which is
    what addresses and the titles below are: [A]-[Z] go to [a]-[z] and every
    other character stays. *)
Definition lowerCaseChar (c : Ascii.ascii) : Ascii.ascii :=
  let n := Ascii.nat_of_ascii c in
  if decide (65 ≤ n ∧ n ≤ 90)%nat then Ascii.ascii_of_nat (n + 32) else c.

Fixpoint toLowerCase (s : string) : string :=
  match s with
  | EmptyString => EmptyString
  | String c rest => String (lowerCaseChar c) (toLowerCase rest)
  end.

(** The strings the model of [toLowerCase] speaks for. *)
Definition plainAscii (s : string) : Prop :=
  Forall (λ c, (Ascii.nat_of_ascii c < 128)%nat) (String.list_ascii_of_string s).

(** The parent object of the [Address] and [ResolvedName] types:
    [{ address }]. *)
Record AddressObject := { address_of : string }.

(** [resolver.resolve] of the reverse-resolver contract: a name, nothing,
    or it throws. *)
Class ReverseResolver := {
  resolve : string → Completion (option string) }.

(** [Query.address] *)
Definition Query_address (a : string) : AddressObject :=
  {| address_of := toLowerCase a |}.

(** [Address.resolvedName] *)
Definition Address_resolvedName (parent : AddressObject) : AddressObject :=
  {| address_of := address_of parent |}.

(** [Address.wrappedDelegate] *)
Definition Address_wrappedDelegate (parent : AddressObject) : WrappedDelegate :=
  {| address := address_of parent; underlyingDelegate := None |}.

(** [Account.address], on the [id] its selection set asks for. *)
Definition Account_address (account_id : string) : AddressObject :=
  {| address_of := toLowerCase account_id |}.

(** [Delegate.resolvedName], on the [id] its selection set asks for. *)
Definition Delegate_resolvedName (delegate_id : string) : AddressObject :=
  {| address_of := delegate_id |}.

(** [WrappedDelegate.id] *)
Definition WrappedDelegate_id (parent : WrappedDelegate) : string :=
  address parent.

(** [DelegateStatement.openToSponsoringProposals] *)
Definition DelegateStatement_openToSponsoringProposals (parent : ValidatedForm)
    : option bool :=
  if decide (openToSponsoringProposals (form_values parent) = Some "yes")
  then Some true
  else if decide (openToSponsoringProposals (form_values parent) = Some "no")
  then Some false
  else None.

Section more_resolvers.
Context `{RemoteSchema} `{FormSchema} `{ReverseResolver}.

(** [Address.account]: the remote object comes back as it is. *)
Definition Address_account (parent : AddressObject) (info : GraphQLResolveInfo)
    : Resolver (option RemoteDelegate) :=
  let request :=
    {| del_operation := QUERY;
       del_fieldName := "account";
       del_args := [("id", address_of parent)];
       del_info := info |} in
  _ <- record (Delegated request) ;;
  lift (delegateToSchema request).

(** [ResolvedName.name]: a falsy answer, the empty string included, is
    [null]. *)
Definition ResolvedName_name (parent : AddressObject)
    : Completion (option string) :=
  match resolve (address_of parent) with
  | Throw e => Throw e
  | Return None => Return None
  | Return (Some resolved) =>
      if decide (resolved = "") then Return None else Return (Some resolved)
  end.

(** One call of a resolver that touches the statements or the remote
    schema, and the world it leaves. *)
Inductive ResolverCall :=
| CallCreateNewDelegateStatement (statementBodyJson signature : string)
| CallWrappedDelegates (info : GraphQLResolveInfo)
| CallDelegate (parent : WrappedDelegate) (info : GraphQLResolveInfo)
| CallStatement (parent : WrappedDelegate)
| CallAccount (parent : AddressObject) (info : GraphQLResolveInfo).

Definition perform (call : ResolverCall) (w : World) : World :=
  match call with
  | CallCreateNewDelegateStatement body signature =>
      (createNewDelegateStatement body signature w).2
  | CallWrappedDelegates info => (wrappedDelegates info w).2
  | CallDelegate parent info => (WrappedDelegate_delegate parent info w).2
  | CallStatement parent => (WrappedDelegate_statement parent w).2
  | CallAccount parent info => (Address_account parent info w).2
  end.

Definition performAll (calls : list ResolverCall) (w : World) : World :=
  foldl (λ w call, perform call w) w calls.

(** The forms that the mutations among [calls] validate, in order. *)
Definition validatedBy (calls : list ResolverCall) : list ValidatedForm :=
  calls ≫= λ call,
    match call with
    | CallCreateNewDelegateStatement body signature =>
        match validateForm body signature with
        | Return validated => [validated]
        | Throw _ => []
        end
    | _ => []
    end.

End more_resolvers.

(** ** The worker (packages/backend/src/worker.ts) *)

Module Worker.

Inductive Environment := Prod | Dev | Staging.

#[global] Instance Environment_eq_dec : EqDecision Environment.
Proof. solve_decision. Defined.

(** The options [createServer] gets besides the schema and the cache
    plugin. *)
Record ServerOptions := { maskedErrors : bool; graphiql : bool }.

(** Who answers a request. *)
Inductive Response (Schema : Type) :=
| FromServer (schema : Schema) (options : ServerOptions)
| FromAssets (pathname : string).
Arguments FromServer {Schema} schema options.
Arguments FromAssets {Schema} pathname.

(** [makeGatewaySchema]: the outcome of its [n]-th call, which depends on
    the network and the file system. *)
Class GatewayBuilder (Schema : Type) := {
  makeGatewaySchema : nat → Completion Schema }.

(** The module-level [makeGatewaySchemaPromise], a settled promise once set,
    and the number of [makeGatewaySchema] calls made so far. *)
Record State (Schema : Type) := {
  makeGatewaySchemaPromise : option (Completion Schema);
  calls : nat }.
Arguments makeGatewaySchemaPromise {Schema} s.
Arguments calls {Schema} s.

Definition start {Schema} : State Schema :=
  {| makeGatewaySchemaPromise := None; calls := 0 |}.

(** [fetch], on the [pathname] of the request's URL. *)
Definition fetch {Schema} `{GatewayBuilder Schema}
    (pathname : string) (environment : Environment) (st : State Schema)
    : Completion (Response Schema) * State Schema :=
  let isProduction := bool_decide (environment = Prod) in
  if decide (pathname = "/graphql") then
    let '(promise, st') :=
      match makeGatewaySchemaPromise st with
      | None =>
          let promise := makeGatewaySchema (calls st) in
          (promise,
           {| makeGatewaySchemaPromise := Some promise;
              calls := S (calls st) |})
      | Some promise => (promise, st)
      end in
    match promise with
    | Return schema =>
        (Return (FromServer schema
                   {| maskedErrors := isProduction;
                      graphiql := negb isProduction |}), st')
    | Throw e => (Throw e, st')
    end
  else (Return (FromAssets pathname), st).

(** What a request is answered with when the schema promise has settled
    as [promise]. *)
Definition answerWith {Schema} (promise : Completion Schema)
    (request : string * Environment) : Completion (Response Schema) :=
  if decide (request.1 = "/graphql") then
    match promise with
    | Return schema =>
        Return (FromServer schema
                  {| maskedErrors := bool_decide (request.2 = Prod);
                     graphiql := negb (bool_decide (request.2 = Prod)) |})
    | Throw e => Throw e
    end
  else Return (FromAssets request.1).

(** The worker serving requests one after the other. *)
Fixpoint serve {Schema} `{GatewayBuilder Schema}
    (requests : list (string * Environment)) (st : State Schema)
    : list (Completion (Response Schema)) * State Schema :=
  match requests with
  | [] => ([], st)
  | (pathname, environment) :: rest =>
      let '(response, st') := fetch pathname environment st in
      let '(responses, st'') := serve rest st' in
      (response :: responses, st'')
  end.

End Worker.

(** ** The top-issues form section (TopIssuesFormSection.tsx) *)

Module TopIssues.

Record IssueTypeDefinition := {
  key : string;
  title : string;
  icon : string }.

Definition issueDefinitions : list IssueTypeDefinition :=
  [ {| title := "Proliferation"; key := "proliferation";
       icon := "speakerCone" |};
    {| title := "Treasury management"; key := "treasury";
       icon := "piggyBank" |};
    {| title := "Builder funding"; key := "funding"; icon := "measure" |} ].

Record IssueState := { type : string; value : string }.

Definition initialIssueState (type : string) : IssueState :=
  {| type := type; value := "" |}.

(** The state [useState] starts from. *)
Definition initialTopIssues : list IssueState :=
  [ initialIssueState "treasury"; initialIssueState "proliferation" ].

(** [addIssue], as the state update it sets. *)
Definition addIssue (lastIssues : list IssueState) (selectionKey : string)
    : list IssueState :=
  (lastIssues ++ [ initialIssueState selectionKey ])%list.

Record DropdownItem := { selectKey : string; item_title : string }.

(** The [items] handed to the dropdown. *)
Definition dropdownItems : list DropdownItem :=
  (λ def, {| selectKey := key def; item_title := title def |})
    <$> issueDefinitions.

(** What a row of the section shows. *)
Record IssueRow := {
  row_icon : string;
  row_alt : string;
  row_placeholder : string }.

(** The body of [topIssues.map]: the definition is looked up and asserted
    to be there, so reading it when it is not throws. *)
Definition renderIssue (issue : IssueState) : Completion IssueRow :=
  match List.find (λ needle, bool_decide (type issue = key needle))
                  issueDefinitions with
  | None => Throw TypeError
  | Some issueDef =>
      Return {| row_icon := icon issueDef;
                row_alt := title issueDef;
                row_placeholder :=
                  "On " +:+ toLowerCase (title issueDef) +:+ ", I believe..." |}
  end.

(** The rows of the section, or the first throw. *)
Fixpoint renderIssues (topIssues : list IssueState)
    : Completion (list IssueRow) :=
  match topIssues with
  | [] => Return []
  | issue :: rest =>
      match renderIssue issue with
      | Throw e => Throw e
      | Return row =>
          match renderIssues rest with
          | Throw e => Throw e
          | Return rows => Return (row :: rows)
          end
      end
  end.

End TopIssues.

(** ** More sample values *)

Module MoreSamples.

(** An address spelled with capitals, and the same in lower case. *)
Definition carolChecksummed : string :=
  "0x00000000000000000000000000000000000CA701".
Definition carol : string := "0x00000000000000000000000000000000000ca701".

End MoreSamples.

(** ** Lists *)

Lemma filter_none {A} (P : A → Prop) `{∀ x, Decision (P x)} (l : list A) :
  (∀ x, x ∈ l → ¬ P x) → filter P l = [].
Proof.
  induction l as [|a l IH]; intros Hl; [done|].
  rewrite filter_cons_False; [|apply Hl; left].
  apply IH. intros x Hx. apply Hl. by right.
Qed.

(** ** The map *)

Section JsMap_facts.
Context {V : Type}.
Implicit Types (m : list (string * V)) (k : string) (v : V).

Lemma get_set_eq k v m : JsMap.get k (JsMap.set k v m) = Some v.
Proof.
  induction m as [|[k' v'] m IH]; simpl.
  - by rewrite decide_True.
  - destruct (decide (k' = k)) as [->|Hne]; simpl.
    + by rewrite decide_True.
    + by rewrite decide_False.
Qed.

Lemma get_set_ne k k' v m :
  k' ≠ k → JsMap.get k' (JsMap.set k v m) = JsMap.get k' m.
Proof.
  intros Hne. induction m as [|[k0 v0] m IH]; simpl.
  - by rewrite decide_False.
  - destruct (decide (k0 = k)) as [->|Hk]; simpl.
    + by rewrite !decide_False.
    + by rewrite IH.
Qed.

Lemma keys_set_present k v m :
  k ∈ JsMap.keys m → JsMap.keys (JsMap.set k v m) = JsMap.keys m.
Proof.
  unfold JsMap.keys. induction m as [|[k' v'] m IH]; csimpl.
  - by intros ?%elem_of_nil.
  - intros Hin. destruct (decide (k' = k)) as [->|Hne]; csimpl; [done|].
    f_equal. apply IH. apply elem_of_cons in Hin as [?|?]; [by subst|done].
Qed.

Lemma keys_set_fresh k v m :
  k ∉ JsMap.keys m →
  JsMap.keys (JsMap.set k v m) = (JsMap.keys m ++ [k])%list.
Proof.
  unfold JsMap.keys. induction m as [|[k' v'] m IH]; csimpl; [done|].
  intros Hnin. apply not_elem_of_cons in Hnin as [Hne Hnin].
  rewrite decide_False; [|done]. csimpl. by rewrite IH.
Qed.

Lemma wf_set k v m : JsMap.wf m → JsMap.wf (JsMap.set k v m).
Proof.
  unfold JsMap.wf. intros Hwf.
  destruct (decide (k ∈ JsMap.keys m)) as [Hin|Hnin].
  - by rewrite keys_set_present.
  - rewrite keys_set_fresh; [|done].
    apply NoDup_app. split_and!; [done| |apply NoDup_singleton].
    intros x Hx ->%list_elem_of_singleton. done.
Qed.

(** In a well-formed map, the entries under [k] after [set k v] are the
    one just written. *)
Lemma entries_set k v m :
  JsMap.wf m →
  filter (λ e, e.1 = k) (JsMap.set k v m) = [(k, v)].
Proof.
  unfold JsMap.wf, JsMap.keys.
  induction m as [|[k' v'] m IH]; csimpl; intros Hwf.
  - by rewrite filter_cons_True.
  - apply NoDup_cons in Hwf as [Hk' Hwf].
    destruct (decide (k' = k)) as [->|Hne].
    + rewrite filter_cons_True; [|done]. f_equal.
      apply filter_none.
      intros [k0 v0] Hin Heq. simpl in Heq. subst k0.
      apply Hk', list_elem_of_fmap. by exists (k, v0).
    + rewrite filter_cons_False; [|done]. by apply IH.
Qed.
End JsMap_facts.

Lemma initialDelegateStatements_wf : JsMap.wf initialDelegateStatements.
Proof. apply NoDup_singleton. Qed.

(** ** The selection-set extractor *)

Lemma find_firstNode name nodes f :
  firstNode name nodes f →
  List.find (λ node, bool_decide (field_name node = name)) nodes = Some f.
Proof.
  intros (before & after & -> & Hname & Hbefore).
  induction before as [|g before IH]; simpl.
  - by rewrite bool_decide_true.
  - rewrite bool_decide_false; [|apply Hbefore; left].
    apply IH. intros g' Hg'. apply Hbefore. by right.
Qed.

Lemma find_no_node name nodes :
  (∀ n, n ∈ nodes → field_name n ≠ name) →
  List.find (λ node, bool_decide (field_name node = name)) nodes = None.
Proof.
  induction nodes as [|g nodes IH]; intros Hall; simpl; [done|].
  rewrite bool_decide_false; [|apply Hall; left].
  apply IH. intros n Hn. apply Hall. by right.
Qed.

Lemma delegate_fields_none selections :
  (∀ g, FieldSel g ∈ selections → field_name g ≠ "delegate") →
  selections ≫= isDelegateField = [].
Proof.
  induction selections as [|s selections IH]; intros Hall; [done|].
  rewrite bind_cons, IH; [|intros g Hg; apply Hall; by right].
  destruct s as [g| |]; simpl; try done.
  rewrite decide_False; [done|]. apply Hall. left.
Qed.

Lemma delegate_fields_first selections f :
  firstField "delegate" selections f →
  head (selections ≫= isDelegateField) = Some f.
Proof.
  intros (before & after & -> & Hname & Hbefore).
  rewrite bind_app, bind_cons, (delegate_fields_none before); [|done].
  simpl. by rewrite decide_True.
Qed.

Lemma isExtraSelection_spec node :
  isExtraSelection node ↔ ∃ f, node = FieldSel f ∧ field_name f ≠ "id".
Proof.
  destruct node as [f| |]; simpl.
  - rewrite bool_decide_spec. split; [by eauto|].
    by intros (g & [= <-] & ?).
  - split; [done|]. by intros (g & ? & ?).
  - split; [done|]. by intros (g & ? & ?).
Qed.

Lemma extractor_requested info asked :
  Requested info asked →
  getSelectionSetFromDelegateField info =
    Return (filter (λ node, isExtraSelection node) (default [] asked)).
Proof.
  unfold getSelectionSetFromDelegateField, selectionsOf.
  intros [Hnone | root selections Hroot Hsel Hnone
              | root selections d nested Hroot Hsel Hd Hnested].
  - by rewrite find_no_node.
  - rewrite (find_firstNode _ _ _ Hroot), Hsel.
    by rewrite delegate_fields_none.
  - rewrite (find_firstNode _ _ _ Hroot), Hsel.
    by rewrite (delegate_fields_first _ _ Hd), Hnested.
Qed.

(** ** The fused query *)

Lemma fused_document extras :
  buildFusedDelegateQuery extras =
    Document
      [ OperationDef
          (OperationDefinition QUERY (Some "FusedDelegateQuery") []
             [ FieldSel
                 (Field None "delegates"
                    [ Argument "first" (IntValue 1000);
                      Argument "orderBy" (EnumValue "delegatedVotesRaw");
                      Argument "orderDirection" (EnumValue "desc") ]
                    []
                    (Some [ FragmentSpread "DelegateFields" [] ])) ]);
        FragmentDef
          (FragmentDefinition "DelegateFields" "Delegate" []
             (leaf "id" :: extras)) ].
Proof. reflexivity. Qed.

Lemma fused_result_selection extras :
  fusedResultSelection (buildFusedDelegateQuery extras) = leaf "id" :: extras.
Proof.
  rewrite fused_document. unfold fusedResultSelection, fragmentSelections.
  simpl. by rewrite app_nil_r.
Qed.

(** Decomposes a concrete list at a given place to show which node or
    field selection comes first under a name. *)
Ltac first_at before after :=
  exists before, after; split_and!;
  [ reflexivity
  | reflexivity
  | let g := fresh "g" in
    let Hg := fresh "Hg" in
    intros g Hg; unfold leaf in Hg;
    repeat (apply elem_of_cons in Hg as [Hg|Hg];
            [by simplify_eq|]);
    by apply elem_of_nil in Hg ].

(** ** Claims on the extractor and the fused query *)


(** Of two [delegate] fields in one request only the first is looked at:
    for [wrappedDelegates { delegate { delegatedVotes }
    delegate { nounsRepresented { id } } }] the fused query asks
    [delegatedVotes] and not [nounsRepresented]. *)
Lemma second_delegate_field_not_fused :
  getSelectionSetFromDelegateField Samples.twoDelegateFields =
    Return [ leaf "delegatedVotes" ] ∧
  fusedResultSelection (buildFusedDelegateQuery [ leaf "delegatedVotes" ]) =
    [ leaf "id"; leaf "delegatedVotes" ].
Proof. split; reflexivity. Qed.



(** C2, as the specification has it, fails on the code: for
    [wrappedDelegates { id delegate { id delegatedVotes ...Profile } }] the
    nested selections minus the identity field are [delegatedVotes] and the
    spread [...Profile], and the extractor returns [delegatedVotes] alone. *)
Lemma C2_fragment_spread_removed :
  Requested Samples.withSpread
    (Some [ leaf "id"; leaf "delegatedVotes"; FragmentSpread "Profile" [] ]) ∧
  minusIdentity
    [ leaf "id"; leaf "delegatedVotes"; FragmentSpread "Profile" [] ] =
    [ leaf "delegatedVotes"; FragmentSpread "Profile" [] ] ∧
  getSelectionSetFromDelegateField Samples.withSpread =
    Return [ leaf "delegatedVotes" ] ∧
  getSelectionSetFromDelegateField Samples.withSpread ≠
    Return (minusIdentity
              [ leaf "id"; leaf "delegatedVotes"; FragmentSpread "Profile" [] ]).
Proof.
  split_and!.
  - eapply Requested_delegate.
    + first_at (@nil FieldNode) (@nil FieldNode).
    + reflexivity.
    + first_at [leaf "id"] (@nil SelectionNode).
    + reflexivity.
  - reflexivity.
  - reflexivity.
  - discriminate.
Qed.

(** C2, amended: the extractor takes the first node of the current field
    and the first [delegate] field below it and returns, in their order and
    as often as they occur, exactly those of its selections that are fields
    not named [id]; fragment spreads and inline fragments are removed along
    with [id]. When every nested selection is a field this is the nested
    selection minus [id]. If the current field or the nested [delegate]
    field is absent the result is the empty list and nothing is thrown. *)
Theorem C2_extractor_returns_nested_fields info asked :
  Requested info asked →
  ∃ extras,
    getSelectionSetFromDelegateField info = Return extras ∧
    match asked with
    | None => extras = []
    | Some nested =>
        extras = filter fieldOtherThanId nested ∧
        extras `sublist_of` nested ∧
        (∀ node, node ∈ extras ↔
           node ∈ nested ∧ ∃ f, node = FieldSel f ∧ field_name f ≠ "id") ∧
        ((∀ node, node ∈ nested → ∃ f, node = FieldSel f) →
         extras = minusIdentity nested)
    end.
Proof.
  intros Hreq. eexists. split; [by apply extractor_requested|].
  destruct asked as [nested|]; simpl; [|done].
  split_and!.
  - clear Hreq. induction nested as [|node nested IH]; [done|].
    rewrite !filter_cons, IH.
    destruct (decide (fieldOtherThanId node)) as [Hkept|Hdropped].
    + apply isExtraSelection_spec in Hkept. by rewrite decide_True.
    + rewrite decide_False; [done|]. by rewrite isExtraSelection_spec.
  - apply sublist_filter.
  - intros node. rewrite list_elem_of_filter, isExtraSelection_spec.
    tauto.
  - intros Hfields. unfold minusIdentity. clear Hreq.
    induction nested as [|node nested IH]; [done|].
    destruct (Hfields node) as [f ->]; [left|].
    rewrite !filter_cons.
    rewrite IH; [|intros ? ?; apply Hfields; by right].
    simpl. by repeat case_decide.
Qed.

Lemma C2_extractor_returns_nested_fields_witness :
  ∃ extras,
    getSelectionSetFromDelegateField Samples.withRepeatedField =
      Return extras ∧
    extras =
      filter fieldOtherThanId
        [ leaf "delegatedVotes"; leaf "id"; leaf "delegatedVotes";
          FragmentSpread "Profile" [] ] ∧
    extras `sublist_of`
      [ leaf "delegatedVotes"; leaf "id"; leaf "delegatedVotes";
        FragmentSpread "Profile" [] ] ∧
    (∀ node, node ∈ extras ↔
       node ∈ [ leaf "delegatedVotes"; leaf "id"; leaf "delegatedVotes";
                FragmentSpread "Profile" [] ] ∧
       ∃ f, node = FieldSel f ∧ field_name f ≠ "id") ∧
    ((∀ node,
        node ∈ [ leaf "delegatedVotes"; leaf "id"; leaf "delegatedVotes";
                 FragmentSpread "Profile" [] ] →
        ∃ f, node = FieldSel f) →
     extras =
       minusIdentity
         [ leaf "delegatedVotes"; leaf "id"; leaf "delegatedVotes";
           FragmentSpread "Profile" [] ]).
Proof.
  apply (C2_extractor_returns_nested_fields Samples.withRepeatedField
           (Some [ leaf "delegatedVotes"; leaf "id"; leaf "delegatedVotes";
                   FragmentSpread "Profile" [] ])).
  eapply Requested_delegate.
  - first_at (@nil FieldNode) (@nil FieldNode).
  - reflexivity.
  - first_at (@nil SelectionNode) (@nil SelectionNode).
  - reflexivity.
Defined.

(** At that request both occurrences of [delegatedVotes] are returned, and
    neither [id] nor the spread. *)
Lemma repeated_field_is_returned_twice :
  getSelectionSetFromDelegateField Samples.withRepeatedField =
    Return [ leaf "delegatedVotes"; leaf "delegatedVotes" ] ∧
  filter fieldOtherThanId
    [ leaf "delegatedVotes"; leaf "id"; leaf "delegatedVotes";
      FragmentSpread "Profile" [] ] =
    [ leaf "delegatedVotes"; leaf "delegatedVotes" ].
Proof. split; reflexivity. Qed.

(** ** The listing *)

Lemma entriesFor_app a (l1 l2 : list WrappedDelegate) :
  entriesFor a (l1 ++ l2) = (entriesFor a l1 ++ entriesFor a l2)%list.
Proof. apply filter_app. Qed.

Lemma entries_fromRemote a (rows : list RemoteDelegate) :
  entriesFor a (fromRemoteDelegate <$> rows) =
    fromRemoteDelegate <$> filter (λ r, id r = a) rows.
Proof.
  unfold entriesFor. induction rows as [|r rows IH]; [done|].
  rewrite fmap_cons, !filter_cons, IH. simpl.
  by destruct (decide (id r = a)).
Qed.

Lemma entries_fromStatement a (ks : list string) :
  NoDup ks → a ∈ ks →
  entriesFor a (fromDelegateStatement <$> ks) = [fromDelegateStatement a].
Proof.
  unfold entriesFor. induction ks as [|k ks IH]; intros Hnd Hin.
  - by apply elem_of_nil in Hin.
  - apply NoDup_cons in Hnd as [Hk Hnd]. rewrite fmap_cons, filter_cons.
    simpl. destruct (decide (k = a)) as [->|Hne].
    + f_equal. apply filter_none.
      intros it (k' & -> & Hk')%list_elem_of_fmap Heq. simpl in Heq.
      by subst k'.
    + apply IH; [done|]. apply elem_of_cons in Hin as [?|?]; [by subst|done].
Qed.

Lemma entries_fromStatement_absent a (ks : list string) :
  a ∉ ks → entriesFor a (fromDelegateStatement <$> ks) = [].
Proof.
  intros Hnin. apply filter_none.
  intros it (k & -> & Hk)%list_elem_of_fmap Heq. simpl in Heq. by subst k.
Qed.

(** Filtering against the [Set] of remote addresses is filtering the keys
    against the ids of the rows. *)
Lemma statements_not_remote (rows : list RemoteDelegate) (ks : list string) :
  filter (λ it, address it ∉
                  (list_to_set (address <$> (fromRemoteDelegate <$> rows))
                     : gset string))
         (fromDelegateStatement <$> ks) =
    fromDelegateStatement <$> filter (λ a, a ∉ id <$> rows) ks.
Proof.
  assert (∀ a, a ∈ (list_to_set (address <$> (fromRemoteDelegate <$> rows))
                      : gset string) ↔ a ∈ id <$> rows) as Hset.
  { intros a. rewrite elem_of_list_to_set, <-list_fmap_compose. done. }
  induction ks as [|k ks IH]; [done|].
  rewrite fmap_cons, !filter_cons, IH. simpl.
  destruct (decide (k ∉ id <$> rows)) as [Hk|Hk].
  - rewrite decide_True; [done|]. by rewrite Hset.
  - rewrite decide_False; [done|]. by rewrite Hset.
Qed.

Section listing.
Context `{RemoteSchema}.

(** One run of the resolver once the extractor has returned: the fused
    query is printed and executed, and the outcome follows the result. *)
Lemma wrappedDelegates_run info w extras :
  getSelectionSetFromDelegateField info = Return extras →
  wrappedDelegates info w =
    let source := print (buildFusedDelegateQuery extras) in
    (match errors (graphql source) with
     | Some errs => Throw (AggregateError errs (joinMessages errs))
     | None =>
         match data (graphql source) with
         | None => Throw TypeError
         | Some rows =>
             Return ((fromRemoteDelegate <$> rows) ++
                     (fromDelegateStatement <$>
                        filter (λ a, a ∉ id <$> rows)
                               (JsMap.keys (delegateStatements w))))%list
         end
     end,
     {| delegateStatements := delegateStatements w;
        remoteCalls := (remoteCalls w ++ [Executed source])%list |}).
Proof.
  intros Hextract. unfold wrappedDelegates, bind, lift, readStatements.
  rewrite Hextract. simpl.
  destruct (errors _) as [errs|]; [done|].
  destruct (data _) as [rows|]; [|done].
  unfold ret. by rewrite statements_not_remote.
Qed.

(** Nothing is sent when the extractor throws. *)
Lemma wrappedDelegates_extractor_throws info w e :
  getSelectionSetFromDelegateField info = Throw e →
  wrappedDelegates info w = (Throw e, w).
Proof.
  intros Hextract. unfold wrappedDelegates, bind, lift.
  by rewrite Hextract.
Qed.
End listing.

(** ** Claims on the listing *)

Section listing_claims.
Context `{RemoteSchema}.

(** C3: when the execution of the fused query returns a list of errors,
    [wrappedDelegates] throws an [AggregateError] that carries exactly
    those errors, its message being their messages joined by a comma and a
    line break; the resolver returns no list, and the statements are as
    they were. *)
Theorem C3_remote_errors_are_thrown_together info w extras errs :
  getSelectionSetFromDelegateField info = Return extras →
  errors (graphql (print (buildFusedDelegateQuery extras))) = Some errs →
  errs ≠ [] →
  (wrappedDelegates info w).1 =
    Throw (AggregateError errs
             (String.concat (", " +:+ String (Ascii.ascii_of_nat 10) "")
                (message <$> errs))) ∧
  (∀ listing, (wrappedDelegates info w).1 ≠ Return listing) ∧
  delegateStatements (wrappedDelegates info w).2 = delegateStatements w.
Proof.
  intros Hextract Herrors _.
  rewrite (wrappedDelegates_run _ _ _ Hextract). simpl.
  by rewrite Herrors.
Qed.

(** C4: take an address [a] with an entry in the statement map and a
    fused query that came back without errors. If no row has id [a], the
    listing has exactly one entry for [a], without [underlyingDelegate];
    if exactly one row [r] has id [a], the listing has exactly one entry
    for [a], and its [underlyingDelegate] is [r]. *)
Theorem C4_each_address_listed_once info w extras rows a :
  JsMap.wf (delegateStatements w) →
  getSelectionSetFromDelegateField info = Return extras →
  graphql (print (buildFusedDelegateQuery extras)) =
    {| errors := None; data := Some rows |} →
  a ∈ JsMap.keys (delegateStatements w) →
  ∃ listing,
    (wrappedDelegates info w).1 = Return listing ∧
    ((∀ r, r ∈ rows → id r ≠ a) →
     entriesFor a listing =
       [ {| address := a; underlyingDelegate := None |} ]) ∧
    (∀ r, filter (λ r', id r' = a) rows = [r] →
     entriesFor a listing =
       [ {| address := a; underlyingDelegate := Some r |} ]).
Proof.
  intros Hwf Hextract Hresult Hin.
  rewrite (wrappedDelegates_run _ _ _ Hextract). simpl.
  rewrite Hresult. simpl. eexists. split; [done|].
  split.
  - intros Hnone. rewrite entriesFor_app, entries_fromRemote.
    rewrite (filter_none (λ r, id r = a)); [|done].
    rewrite entries_fromStatement; [done|by apply NoDup_filter|].
    apply list_elem_of_filter. split; [|done].
    intros (r & Hr & Hrin)%list_elem_of_fmap. by apply (Hnone r).
  - intros r Hone. rewrite entriesFor_app, entries_fromRemote, Hone.
    assert (r ∈ filter (λ r', id r' = a) rows) as [Hid Hr]%list_elem_of_filter
      by (rewrite Hone; left).
    rewrite entries_fromStatement_absent.
    + unfold fromRemoteDelegate. simpl. by rewrite Hid.
    + intros [Hnot _]%list_elem_of_filter. apply Hnot.
      apply list_elem_of_fmap. by exists r.
Qed.

(** C5: whatever the extra selections, the fused query is one [delegates]
    query with [first: 1000], [orderBy: delegatedVotesRaw] and
    [orderDirection: desc] that spreads the fragment [DelegateFields],
    and that fragment selects [id] followed by the extra selections. The
    resolver prints and executes this query exactly once whatever the
    extractor returned, the empty list included. *)
Theorem C5_fused_query_shape_and_execution extras :
  definitions (buildFusedDelegateQuery extras) =
    [ OperationDef
        (OperationDefinition QUERY (Some "FusedDelegateQuery") []
           [ FieldSel
               (Field None "delegates"
                  [ Argument "first" (IntValue 1000);
                    Argument "orderBy" (EnumValue "delegatedVotesRaw");
                    Argument "orderDirection" (EnumValue "desc") ]
                  []
                  (Some [ FragmentSpread "DelegateFields" [] ])) ]);
      FragmentDef
        (FragmentDefinition "DelegateFields" "Delegate" []
           (leaf "id" :: extras)) ] ∧
  ∀ info w,
    getSelectionSetFromDelegateField info = Return extras →
    remoteCalls (wrappedDelegates info w).2 =
      (remoteCalls w ++
       [ Executed (print (buildFusedDelegateQuery extras)) ])%list.
Proof.
  split; [by rewrite fused_document|].
  intros info w Hextract.
  by rewrite (wrappedDelegates_run _ _ _ Hextract).
Qed.

(** C10: a listing that [wrappedDelegates] returns is the rows of the
    fused query, in the order the remote schema gave them and each with
    its row as [underlyingDelegate], followed by the keys of the statement
    map that are no row's id, in the order the map iterates them and each
    without [underlyingDelegate]. *)
Theorem C10_remote_rows_then_statements info w listing :
  (wrappedDelegates info w).1 = Return listing →
  ∃ extras rows onChain statementOnly,
    getSelectionSetFromDelegateField info = Return extras ∧
    data (graphql (print (buildFusedDelegateQuery extras))) = Some rows ∧
    listing = (onChain ++ statementOnly)%list ∧
    address <$> onChain = id <$> rows ∧
    underlyingDelegate <$> onChain = Some <$> rows ∧
    address <$> statementOnly =
      filter (λ a, a ∉ id <$> rows) (JsMap.keys (delegateStatements w)) ∧
    Forall (λ it, underlyingDelegate it = None) statementOnly.
Proof.
  destruct (getSelectionSetFromDelegateField info) as [extras|e] eqn:Hextract.
  2:{ by rewrite (wrappedDelegates_extractor_throws _ _ _ Hextract). }
  rewrite (wrappedDelegates_run _ _ _ Hextract). simpl.
  destruct (errors _) as [errs|]; [done|].
  destruct (data _) as [rows|] eqn:Hdata; [|done].
  intros [= <-]. eexists extras, rows, _, _.
  split_and!; [done|done|done| | | |].
  - by rewrite <-list_fmap_compose.
  - by rewrite <-list_fmap_compose.
  - rewrite <-list_fmap_compose. apply list_fmap_id.
  - apply Forall_fmap, Forall_forall. done.
Qed.
End listing_claims.

(** ** Claims on delegate statements *)

Section statement_claims.
Context `{FormSchema}.

(** The order the statement map iterates in is the order of first
    submission: a new address goes last, a known one keeps its place. *)
Lemma createNewDelegateStatement_keys body signature validated w :
  validateForm body signature = Return validated →
  JsMap.keys
    (delegateStatements (createNewDelegateStatement body signature w).2) =
    if decide (form_address validated ∈ JsMap.keys (delegateStatements w))
    then JsMap.keys (delegateStatements w)
    else (JsMap.keys (delegateStatements w) ++ [form_address validated])%list.
Proof.
  intros Hvalid. unfold createNewDelegateStatement, bind, lift.
  rewrite Hvalid. simpl. case_decide.
  - by apply keys_set_present.
  - by apply keys_set_fresh.
Qed.

Lemma createNewDelegateStatement_valid body signature validated w :
  validateForm body signature = Return validated →
  createNewDelegateStatement body signature w =
    (Return [ ("address", JsString (form_address validated)) ],
     {| delegateStatements :=
          JsMap.set (form_address validated) validated (delegateStatements w);
        remoteCalls := remoteCalls w |}).
Proof.
  intros Hvalid. unfold createNewDelegateStatement, bind, lift.
  by rewrite Hvalid.
Qed.

Lemma createNewDelegateStatement_wf body signature w :
  JsMap.wf (delegateStatements w) →
  JsMap.wf
    (delegateStatements (createNewDelegateStatement body signature w).2).
Proof.
  intros Hwf. unfold createNewDelegateStatement, bind, lift.
  destruct (validateForm body signature) as [validated|e]; simpl; [|done].
  by apply wf_set.
Qed.

(** C6: when [validateForm] returns a validated form, the mutation puts
    it in the statement map under the form's own address, leaves every
    other address as it was, and returns an object whose only property is
    [address], holding that same address. *)
Theorem C6_valid_statement_is_stored body signature validated w :
  validateForm body signature = Return validated →
  ∃ returned w',
    createNewDelegateStatement body signature w = (Return returned, w') ∧
    returned = [ ("address", JsString (form_address validated)) ] ∧
    returned.*1 = [ "address" ] ∧
    JsMap.get (form_address validated) (delegateStatements w') =
      Some validated ∧
    (∀ k, k ≠ form_address validated →
          JsMap.get k (delegateStatements w') =
            JsMap.get k (delegateStatements w)) ∧
    remoteCalls w' = remoteCalls w.
Proof.
  intros Hvalid. unfold createNewDelegateStatement, bind, lift.
  rewrite Hvalid. simpl. eexists _, _. split_and!; try done.
  - apply get_set_eq.
  - intros k Hk. by apply get_set_ne.
Qed.

(** C7: when [validateForm] throws, the mutation throws the same error
    and the world, the statement map with it, is what it was. *)
Theorem C7_invalid_statement_changes_nothing body signature e w :
  validateForm body signature = Throw e →
  createNewDelegateStatement body signature w = (Throw e, w).
Proof.
  intros Hinvalid. unfold createNewDelegateStatement, bind, lift.
  by rewrite Hinvalid.
Qed.

(** C8: after two valid submissions in a row whose validated forms have
    the same address, the statement map has exactly one entry under that
    address, and it is the second form. Submitting one valid payload twice
    is the case where both submissions are the same. *)
Theorem C8_last_write_wins body1 signature1 body2 signature2 first second w :
  JsMap.wf (delegateStatements w) →
  validateForm body1 signature1 = Return first →
  validateForm body2 signature2 = Return second →
  form_address first = form_address second →
  let w1 := (createNewDelegateStatement body1 signature1 w).2 in
  let w2 := (createNewDelegateStatement body2 signature2 w1).2 in
  filter (λ entry, entry.1 = form_address second) (delegateStatements w2) =
    [ (form_address second, second) ] ∧
  JsMap.get (form_address second) (delegateStatements w2) = Some second.
Proof.
  intros Hwf Hfirst Hsecond Hsame w1 w2.
  assert (JsMap.wf (delegateStatements w1)) as Hwf1
    by by apply createNewDelegateStatement_wf.
  subst w2. rewrite (createNewDelegateStatement_valid _ _ _ _ Hsecond).
  simpl. split.
  - by apply entries_set.
  - apply get_set_eq.
Qed.
End statement_claims.

(** ** Claim on the delegate of a wrapped delegate *)

Section delegate_claims.
Context `{RemoteSchema}.

(** C9: [WrappedDelegate.delegate] returns the [underlyingDelegate] of
    its parent when there is one, without calling the remote schema; when
    there is none it delegates the query field [delegate] with the
    parent's address as [id] to the remote schema and returns what that
    gives. *)
Theorem C9_delegate_or_delegated_fetch parent info w :
  match underlyingDelegate parent with
  | Some underlying =>
      WrappedDelegate_delegate parent info w = (Return (Some underlying), w)
  | None =>
      let request :=
        {| del_operation := QUERY;
           del_fieldName := "delegate";
           del_args := [ ("id", address parent) ];
           del_info := info |} in
      WrappedDelegate_delegate parent info w =
        (delegateToSchema request,
         {| delegateStatements := delegateStatements w;
            remoteCalls := (remoteCalls w ++ [ Delegated request ])%list |})
  end.
Proof.
  unfold WrappedDelegate_delegate.
  destruct (underlyingDelegate parent) as [underlying|]; [done|].
  unfold bind, record, lift. simpl.
  by destruct (delegateToSchema _).
Qed.
End delegate_claims.

(** ** The claims at sample requests *)

Lemma C3_remote_errors_are_thrown_together_witness :
  (@wrappedDelegates (Samples.remoteAnswering Samples.failed)
     Samples.plain initialWorld).1 =
    Throw (AggregateError
             [ {| message := "timeout" |}; {| message := "bad gateway" |} ]
             (String.concat (", " +:+ String (Ascii.ascii_of_nat 10) "")
                [ "timeout"; "bad gateway" ])) ∧
  (∀ listing,
     (@wrappedDelegates (Samples.remoteAnswering Samples.failed)
        Samples.plain initialWorld).1 ≠ Return listing) ∧
  delegateStatements
    (@wrappedDelegates (Samples.remoteAnswering Samples.failed)
       Samples.plain initialWorld).2 = initialDelegateStatements.
Proof.
  apply (@C3_remote_errors_are_thrown_together
           (Samples.remoteAnswering Samples.failed) Samples.plain initialWorld
           [ leaf "delegatedVotes" ]
           [ {| message := "timeout" |}; {| message := "bad gateway" |} ]).
  - reflexivity.
  - reflexivity.
  - discriminate.
Defined.

Lemma C4_each_address_listed_once_witness :
  ∃ listing,
    (@wrappedDelegates (Samples.remoteAnswering Samples.twoRows)
       Samples.plain initialWorld).1 = Return listing ∧
    ((∀ r, r ∈ [ Samples.row Samples.bob "12"; Samples.row nouncil "7" ] →
           id r ≠ nouncil) →
     entriesFor nouncil listing =
       [ {| address := nouncil; underlyingDelegate := None |} ]) ∧
    (∀ r, filter (λ r', id r' = nouncil)
            [ Samples.row Samples.bob "12"; Samples.row nouncil "7" ] = [r] →
     entriesFor nouncil listing =
       [ {| address := nouncil; underlyingDelegate := Some r |} ]).
Proof.
  apply (@C4_each_address_listed_once
           (Samples.remoteAnswering Samples.twoRows) Samples.plain initialWorld
           [ leaf "delegatedVotes" ]).
  - apply NoDup_singleton.
  - reflexivity.
  - reflexivity.
  - apply list_elem_of_singleton. reflexivity.
Defined.

Lemma C5_fused_query_shape_and_execution_witness :
  remoteCalls
    (@wrappedDelegates (Samples.remoteAnswering Samples.twoRows)
       Samples.idOnly initialWorld).2 =
    [ Executed (@print (Samples.remoteAnswering Samples.twoRows)
                  (buildFusedDelegateQuery [])) ].
Proof.
  apply (proj2 (@C5_fused_query_shape_and_execution
                  (Samples.remoteAnswering Samples.twoRows) [])
           Samples.idOnly initialWorld).
  reflexivity.
Defined.

Lemma C10_remote_rows_then_statements_witness :
  ∃ extras rows onChain statementOnly,
    getSelectionSetFromDelegateField Samples.plain = Return extras ∧
    data (@graphql (Samples.remoteAnswering Samples.oneRow)
            (@print (Samples.remoteAnswering Samples.oneRow)
               (buildFusedDelegateQuery extras))) = Some rows ∧
    [ {| address := Samples.bob;
         underlyingDelegate := Some (Samples.row Samples.bob "12") |};
      {| address := nouncil; underlyingDelegate := None |} ] =
      (onChain ++ statementOnly)%list ∧
    address <$> onChain = id <$> rows ∧
    underlyingDelegate <$> onChain = Some <$> rows ∧
    address <$> statementOnly =
      filter (λ a, a ∉ id <$> rows) (JsMap.keys initialDelegateStatements) ∧
    Forall (λ it, underlyingDelegate it = None) statementOnly.
Proof.
  apply (@C10_remote_rows_then_statements
           (Samples.remoteAnswering Samples.oneRow) Samples.plain initialWorld).
  reflexivity.
Defined.

Lemma C6_valid_statement_is_stored_witness :
  ∃ returned w',
    @createNewDelegateStatement Samples.formsSignedByAddress
      (Samples.alice +:+ ":hello") Samples.alice initialWorld =
      (Return returned, w') ∧
    returned = [ ("address", JsString Samples.alice) ] ∧
    returned.*1 = [ "address" ] ∧
    JsMap.get Samples.alice (delegateStatements w') =
      Some {| form_address := Samples.alice;
              form_values := Samples.someValues "hello" |} ∧
    (∀ k, k ≠ Samples.alice →
          JsMap.get k (delegateStatements w') =
            JsMap.get k initialDelegateStatements) ∧
    remoteCalls w' = [].
Proof.
  apply (@C6_valid_statement_is_stored Samples.formsSignedByAddress
           (Samples.alice +:+ ":hello") Samples.alice
           {| form_address := Samples.alice;
              form_values := Samples.someValues "hello" |} initialWorld).
  reflexivity.
Defined.

Lemma C7_invalid_statement_changes_nothing_witness :
  @createNewDelegateStatement Samples.formsSignedByAddress
    (Samples.alice +:+ ":hello") Samples.bob initialWorld =
    (Throw (ValidationError "signature does not match address"), initialWorld).
Proof.
  apply (@C7_invalid_statement_changes_nothing Samples.formsSignedByAddress).
  reflexivity.
Defined.

Lemma C8_last_write_wins_witness :
  let w1 := (@createNewDelegateStatement Samples.formsSignedByAddress
               (Samples.alice +:+ ":hello") Samples.alice initialWorld).2 in
  let w2 := (@createNewDelegateStatement Samples.formsSignedByAddress
               (Samples.alice +:+ ":hello again") Samples.alice w1).2 in
  filter (λ entry, entry.1 = Samples.alice) (delegateStatements w2) =
    [ (Samples.alice,
       {| form_address := Samples.alice;
          form_values := Samples.someValues "hello again" |}) ] ∧
  JsMap.get Samples.alice (delegateStatements w2) =
    Some {| form_address := Samples.alice;
            form_values := Samples.someValues "hello again" |}.
Proof.
  apply (@C8_last_write_wins Samples.formsSignedByAddress
           (Samples.alice +:+ ":hello") Samples.alice
           (Samples.alice +:+ ":hello again") Samples.alice
           {| form_address := Samples.alice;
              form_values := Samples.someValues "hello" |}
           {| form_address := Samples.alice;
              form_values := Samples.someValues "hello again" |}
           initialWorld).
  - apply NoDup_singleton.
  - reflexivity.
  - reflexivity.
  - reflexivity.
Defined.

(** ** More on the extractor *)

Lemma firstNode_of_find name nodes f :
  List.find (λ node, bool_decide (field_name node = name)) nodes = Some f →
  firstNode name nodes f.
Proof.
  induction nodes as [|g nodes IH]; simpl; [done|].
  case_bool_decide as Hg.
  - intros [= ->]. exists [], nodes. split_and!; [done|done|].
    by intros g ?%elem_of_nil.
  - intros (before & after & -> & Hname & Hbefore)%IH.
    exists (g :: before), after. split_and!; [done|done|].
    intros g' [->|Hg']%elem_of_cons; [done|by apply Hbefore].
Qed.

Lemma no_node_of_find name nodes :
  List.find (λ node, bool_decide (field_name node = name)) nodes = None →
  ∀ n, n ∈ nodes → field_name n ≠ name.
Proof.
  induction nodes as [|g nodes IH]; simpl.
  - by intros _ n ?%elem_of_nil.
  - case_bool_decide as Hg; [done|].
    intros Hnone n [->|Hn]%elem_of_cons; [done|by apply IH].
Qed.

Lemma firstField_of_head selections f :
  head (selections ≫= isDelegateField) = Some f →
  firstField "delegate" selections f.
Proof.
  induction selections as [|s selections IH]; [done|].
  rewrite bind_cons.
  destruct (isDelegateField s) as [|g gs] eqn:Hs.
  - intros (before & after & -> & Hname & Hbefore)%IH.
    exists (s :: before), after. split_and!; [done|done|].
    intros g [<-|Hg]%elem_of_cons; [|by apply Hbefore].
    simpl in Hs. by case_decide.
  - destruct s as [g'| |]; simpl in Hs; try done.
    case_decide as Hname; [|done]. injection Hs as <- <-.
    intros [= <-]. exists [], selections. split_and!; [done|done|].
    by intros g ?%elem_of_nil.
Qed.

Lemma no_field_of_head selections :
  head (selections ≫= isDelegateField) = None →
  ∀ g, FieldSel g ∈ selections → field_name g ≠ "delegate".
Proof.
  intros Hnone%head_None g Hg Hname.
  assert (g ∈ selections ≫= isDelegateField) as Hin.
  { apply list_elem_of_bind. exists (FieldSel g). split; [|done].
    simpl. rewrite decide_True; [left|done]. }
  rewrite Hnone in Hin. by apply elem_of_nil in Hin.
Qed.

(** Every request asks something of the delegate field or makes the
    extractor read a selection set that is not there. *)
Lemma extractor_cases info :
  (∃ asked, Requested info asked) ∨
  (∃ root,
     firstNode (fieldName info) (fieldNodes info) root ∧
     (field_selectionSet root = None ∨
      ∃ selections delegateField,
        field_selectionSet root = Some selections ∧
        firstField "delegate" selections delegateField ∧
        field_selectionSet delegateField = None)).
Proof.
  destruct (List.find (λ node, bool_decide (field_name node = fieldName info))
              (fieldNodes info)) as [root|] eqn:Hfind.
  2:{ left. exists None. by apply Requested_no_root, no_node_of_find. }
  apply firstNode_of_find in Hfind.
  destruct (field_selectionSet root) as [selections|] eqn:Hsel.
  2:{ right. exists root. split; [done|by left]. }
  destruct (head (selections ≫= isDelegateField)) as [d|] eqn:Hhead.
  2:{ left. exists None. eapply Requested_no_delegate; [done|done|].
      by apply no_field_of_head. }
  apply firstField_of_head in Hhead.
  destruct (field_selectionSet d) as [nested|] eqn:Hnested.
  - left. exists (Some nested). by eapply Requested_delegate.
  - right. exists root. split; [done|]. right. by exists selections, d.
Qed.

Lemma extractor_throws info root :
  firstNode (fieldName info) (fieldNodes info) root →
  (field_selectionSet root = None ∨
   ∃ selections delegateField,
     field_selectionSet root = Some selections ∧
     firstField "delegate" selections delegateField ∧
     field_selectionSet delegateField = None) →
  getSelectionSetFromDelegateField info = Throw TypeError.
Proof.
  intros Hroot Hmissing.
  unfold getSelectionSetFromDelegateField, selectionsOf.
  rewrite (find_firstNode _ _ _ Hroot).
  destruct Hmissing as [->|(selections & d & -> & Hd & Hnone)]; [done|].
  by rewrite (delegate_fields_first _ _ Hd), Hnone.
Qed.

Lemma extractor_returns_extras info extras :
  getSelectionSetFromDelegateField info = Return extras →
  Forall (λ node, isExtraSelection node) extras.
Proof.
  destruct (extractor_cases info) as [[asked Hasked]|(root & Hroot & Hmissing)].
  - rewrite (extractor_requested _ _ Hasked). intros [= <-].
    apply Forall_forall. by intros node [? _]%list_elem_of_filter.
  - by rewrite (extractor_throws _ _ Hroot Hmissing).
Qed.

(** X4: the extractor throws nothing but a [TypeError], and it throws it
    exactly when the first node of the current field has no selection set,
    or the first [delegate] field below it has none. *)
Theorem extractor_throws_exactly_on_missing_selection_set info :
  (∀ e, getSelectionSetFromDelegateField info = Throw e → e = TypeError) ∧
  (getSelectionSetFromDelegateField info = Throw TypeError ↔
   ∃ root,
     firstNode (fieldName info) (fieldNodes info) root ∧
     (field_selectionSet root = None ∨
      ∃ selections delegateField,
        field_selectionSet root = Some selections ∧
        firstField "delegate" selections delegateField ∧
        field_selectionSet delegateField = None)).
Proof.
  destruct (extractor_cases info) as [[asked Hasked]|(root & Hroot & Hmissing)].
  - pose proof (extractor_requested _ _ Hasked) as Hreturn.
    rewrite Hreturn. split; [done|]. split; [done|].
    intros (root & Hroot & Hmissing).
    by rewrite (extractor_throws _ _ Hroot Hmissing) in Hreturn.
  - rewrite (extractor_throws _ _ Hroot Hmissing). split.
    + by intros e [= <-].
    + split; [|done]. intros _. by exists root.
Qed.

(** X5: whatever the request, the [DelegateFields] fragment of the fused
    query made from what the extractor returns selects fields only, and
    exactly one of them is the identity field. *)
Theorem fused_query_selects_id_once info extras :
  getSelectionSetFromDelegateField info = Return extras →
  filter (λ node, isIdentitySelection node)
    (fusedResultSelection (buildFusedDelegateQuery extras)) = [ leaf "id" ] ∧
  ∀ node, node ∈ fusedResultSelection (buildFusedDelegateQuery extras) →
          ∃ f, node = FieldSel f.
Proof.
  intros Hextras%extractor_returns_extras.
  rewrite fused_result_selection. split.
  - rewrite filter_cons_True; [|done]. f_equal. apply filter_none.
    intros node Hnode Hid.
    rewrite Forall_forall in Hextras. specialize (Hextras node Hnode).
    apply isExtraSelection_spec in Hextras as (f & -> & Hname).
    simpl in Hid. by apply bool_decide_unpack in Hid.
  - intros node [->|Hnode]%elem_of_cons; [by eexists|].
    rewrite Forall_forall in Hextras. specialize (Hextras node Hnode).
    apply isExtraSelection_spec in Hextras as (f & -> & _). by eexists.
Qed.

Lemma fused_query_selects_id_once_witness :
  filter (λ node, isIdentitySelection node)
    (fusedResultSelection
       (buildFusedDelegateQuery [ leaf "delegatedVotes" ])) = [ leaf "id" ] ∧
  ∀ node,
    node ∈ fusedResultSelection
             (buildFusedDelegateQuery [ leaf "delegatedVotes" ]) →
    ∃ f, node = FieldSel f.
Proof.
  apply (fused_query_selects_id_once Samples.withSpread).
  reflexivity.
Defined.

(** ** More on the map *)

Section JsMap_more.
Context {V : Type}.
Implicit Types (m : list (string * V)) (k : string) (v : V).

Lemma set_set k v1 v2 m :
  JsMap.set k v2 (JsMap.set k v1 m) = JsMap.set k v2 m.
Proof.
  induction m as [|[k' v'] m IH]; simpl.
  - by rewrite decide_True.
  - destruct (decide (k' = k)) as [->|Hne]; simpl.
    + by rewrite decide_True.
    + rewrite decide_False; [|done]. by rewrite IH.
Qed.

Lemma get_of_key k m : k ∈ JsMap.keys m → is_Some (JsMap.get k m).
Proof.
  unfold JsMap.keys. induction m as [|[k' v'] m IH]; csimpl.
  - by intros ?%elem_of_nil.
  - intros Hin. destruct (decide (k' = k)) as [->|Hne]; [by eexists|].
    apply IH. apply elem_of_cons in Hin as [?|?]; [by subst|done].
Qed.

Lemma get_no_key k m : k ∉ JsMap.keys m → JsMap.get k m = None.
Proof.
  unfold JsMap.keys. induction m as [|[k' v'] m IH]; csimpl; [done|].
  intros [Hne Hnin]%not_elem_of_cons.
  rewrite decide_False; [|done]. by apply IH.
Qed.

Lemma keys_set_prefix k v m :
  JsMap.keys m `prefix_of` JsMap.keys (JsMap.set k v m).
Proof.
  destruct (decide (k ∈ JsMap.keys m)) as [Hin|Hnin].
  - by rewrite keys_set_present.
  - rewrite keys_set_fresh; [|done]. by apply prefix_app_r.
Qed.
End JsMap_more.

(** ** More on the listing *)

Section listing_more.
Context `{RemoteSchema} `{FormSchema}.

(** What a returned listing was made of. *)
Lemma wrappedDelegates_returns info w listing :
  (wrappedDelegates info w).1 = Return listing →
  ∃ extras rows,
    getSelectionSetFromDelegateField info = Return extras ∧
    graphql (print (buildFusedDelegateQuery extras)) =
      {| errors := None; data := Some rows |} ∧
    listing = ((fromRemoteDelegate <$> rows) ++
               (fromDelegateStatement <$>
                  filter (λ a, a ∉ id <$> rows)
                         (JsMap.keys (delegateStatements w))))%list.
Proof.
  destruct (getSelectionSetFromDelegateField info) as [extras|e] eqn:Hextract.
  2:{ by rewrite (wrappedDelegates_extractor_throws _ _ _ Hextract). }
  rewrite (wrappedDelegates_run _ _ _ Hextract). simpl.
  destruct (graphql _) as [[errs|] [rows|]] eqn:Hresult; simpl; try done.
  intros [= <-]. by exists extras, rows.
Qed.

Lemma listing_addresses (rows : list RemoteDelegate) (ks : list string) :
  address <$> ((fromRemoteDelegate <$> rows) ++
               (fromDelegateStatement <$>
                  filter (λ a, a ∉ id <$> rows) ks))%list =
    ((id <$> rows) ++ filter (λ a, a ∉ id <$> rows) ks)%list.
Proof.
  rewrite fmap_app, <-!list_fmap_compose. f_equal. apply list_fmap_id.
Qed.

(** X1: when the rows of the fused query have distinct ids, no address
    occurs twice in the listing that [wrappedDelegates] returns. *)
Theorem listing_has_no_address_twice info w extras rows :
  JsMap.wf (delegateStatements w) →
  getSelectionSetFromDelegateField info = Return extras →
  graphql (print (buildFusedDelegateQuery extras)) =
    {| errors := None; data := Some rows |} →
  NoDup (id <$> rows) →
  ∃ listing,
    (wrappedDelegates info w).1 = Return listing ∧
    NoDup (address <$> listing).
Proof.
  intros Hwf Hextract Hresult Hrows.
  rewrite (wrappedDelegates_run _ _ _ Hextract). simpl.
  rewrite Hresult. simpl. eexists. split; [done|].
  rewrite listing_addresses. apply NoDup_app. split_and!; [done| |].
  - by intros a Ha [Hnot _]%list_elem_of_filter.
  - by apply NoDup_filter.
Qed.

(** X2: the addresses of a returned listing are the ids of the rows of
    the fused query together with the keys of the statement map, and
    nothing else. *)
Theorem listing_addresses_are_rows_and_statements info w listing :
  (wrappedDelegates info w).1 = Return listing →
  ∃ extras rows,
    getSelectionSetFromDelegateField info = Return extras ∧
    data (graphql (print (buildFusedDelegateQuery extras))) = Some rows ∧
    ∀ a, a ∈ address <$> listing ↔
         a ∈ id <$> rows ∨ a ∈ JsMap.keys (delegateStatements w).
Proof.
  intros (extras & rows & Hextract & Hresult & ->)%wrappedDelegates_returns.
  exists extras, rows. split_and!; [done|by rewrite Hresult|].
  intros a. rewrite listing_addresses, elem_of_app, list_elem_of_filter.
  destruct (decide (a ∈ id <$> rows)); tauto.
Qed.

Lemma wrappedDelegates_keeps_statements info w :
  delegateStatements (wrappedDelegates info w).2 = delegateStatements w.
Proof.
  destruct (getSelectionSetFromDelegateField info) as [extras|e] eqn:Hextract.
  - by rewrite (wrappedDelegates_run _ _ _ Hextract).
  - by rewrite (wrappedDelegates_extractor_throws _ _ _ Hextract).
Qed.

(** X3: [wrappedDelegates] never changes the statement map, whatever its
    outcome, and calls the remote schema at most once: not at all when the
    extractor throws, and otherwise to execute the printed fused query. *)
Theorem wrappedDelegates_reads_only info w :
  delegateStatements (wrappedDelegates info w).2 = delegateStatements w ∧
  match getSelectionSetFromDelegateField info with
  | Throw e => wrappedDelegates info w = (Throw e, w)
  | Return extras =>
      remoteCalls (wrappedDelegates info w).2 =
        (remoteCalls w ++
         [ Executed (print (buildFusedDelegateQuery extras)) ])%list
  end.
Proof.
  destruct (getSelectionSetFromDelegateField info) as [extras|e] eqn:Hextract.
  - by rewrite (wrappedDelegates_run _ _ _ Hextract).
  - by rewrite (wrappedDelegates_extractor_throws _ _ _ Hextract).
Qed.

(** X6: every entry of a returned listing has either the row it came
    from or a statement that [WrappedDelegate.statement] finds; none is
    empty-handed. *)
Theorem listing_entries_have_a_delegate_or_a_statement info w listing it :
  (wrappedDelegates info w).1 = Return listing →
  it ∈ listing →
  is_Some (underlyingDelegate it) ∨
  ∃ form,
    WrappedDelegate_statement it (wrappedDelegates info w).2 =
      (Return (Some form), (wrappedDelegates info w).2).
Proof.
  intros Hreturn Hit.
  pose proof (wrappedDelegates_keeps_statements info w) as Hsame.
  apply wrappedDelegates_returns in Hreturn as (extras & rows & _ & _ & ->).
  apply elem_of_app in Hit as [Hit|Hit].
  - apply list_elem_of_fmap in Hit as (row & -> & _). left. by eexists.
  - apply list_elem_of_fmap in Hit as (a & -> & [_ Ha]%list_elem_of_filter).
    right. destruct (get_of_key _ _ Ha) as [form Hform]. exists form.
    unfold WrappedDelegate_statement, bind, readStatements, ret. simpl.
    by rewrite Hsame, Hform.
Qed.

(** X7: for an entry of a returned listing that came from a row,
    [WrappedDelegate.delegate] hands back that row without calling the
    remote schema, and the row's id is what [WrappedDelegate.id] gives. *)
Theorem listed_delegate_is_served_from_the_listing
    info w listing it delegate info' w' :
  (wrappedDelegates info w).1 = Return listing →
  it ∈ listing →
  underlyingDelegate it = Some delegate →
  WrappedDelegate_delegate it info' w' = (Return (Some delegate), w') ∧
  id delegate = WrappedDelegate_id it.
Proof.
  intros (extras & rows & _ & _ & ->)%wrappedDelegates_returns Hit Hsome.
  split; [unfold WrappedDelegate_delegate; by rewrite Hsome|].
  apply elem_of_app in Hit as [Hit|Hit];
    apply list_elem_of_fmap in Hit as (x & -> & _); simpl in Hsome.
  - by injection Hsome as <-.
  - done.
Qed.

(** X8: a statement submitted for an address that had none, and that is
    no row's id, is the last entry of the next listing. *)
Theorem new_statement_is_listed_last
    body signature validated info w extras rows :
  validateForm body signature = Return validated →
  form_address validated ∉ JsMap.keys (delegateStatements w) →
  getSelectionSetFromDelegateField info = Return extras →
  graphql (print (buildFusedDelegateQuery extras)) =
    {| errors := None; data := Some rows |} →
  form_address validated ∉ id <$> rows →
  ∃ listing,
    (wrappedDelegates info
       (createNewDelegateStatement body signature w).2).1 = Return listing ∧
    last listing =
      Some {| address := form_address validated; underlyingDelegate := None |}.
Proof.
  intros Hvalid Hfresh Hextract Hresult Hrow.
  rewrite (wrappedDelegates_run _ _ _ Hextract). simpl.
  rewrite Hresult. simpl. eexists. split; [done|].
  unfold createNewDelegateStatement, bind, lift. rewrite Hvalid. simpl.
  rewrite keys_set_fresh; [|done].
  rewrite filter_app, filter_cons_True, fmap_app, app_assoc; [|done].
  apply last_snoc.
Qed.
End listing_more.

(** ** More on delegate statements *)

Section statements_more.
Context `{RemoteSchema} `{FormSchema}.

(** X9: a statement that the mutation has stored is what
    [WrappedDelegate.statement] returns for the address the mutation
    answered with, and reading it changes nothing. *)
Theorem statement_is_read_back body signature validated w :
  validateForm body signature = Return validated →
  (createNewDelegateStatement body signature w).1 =
    Return [ ("address", JsString (form_address validated)) ] ∧
  WrappedDelegate_statement
    {| address := form_address validated; underlyingDelegate := None |}
    (createNewDelegateStatement body signature w).2 =
    (Return (Some validated), (createNewDelegateStatement body signature w).2).
Proof.
  intros Hvalid. rewrite (createNewDelegateStatement_valid _ _ _ _ Hvalid).
  split; [done|].
  unfold WrappedDelegate_statement, bind, readStatements, ret. simpl.
  by rewrite get_set_eq.
Qed.

(** X10: a valid submission wipes out an earlier one for the same address
    altogether: submitting the first and then the second leaves the same
    answer and the same world as submitting the second alone. *)
Theorem earlier_statement_leaves_no_trace
    body1 signature1 body2 signature2 first second w :
  validateForm body1 signature1 = Return first →
  validateForm body2 signature2 = Return second →
  form_address first = form_address second →
  createNewDelegateStatement body2 signature2
    (createNewDelegateStatement body1 signature1 w).2 =
    createNewDelegateStatement body2 signature2 w.
Proof.
  intros Hfirst Hsecond Hsame.
  rewrite (createNewDelegateStatement_valid _ _ _ _ Hfirst).
  rewrite !(createNewDelegateStatement_valid _ _ _ _ Hsecond). simpl.
  by rewrite Hsame, set_set.
Qed.

Lemma perform_statements call w :
  delegateStatements (perform call w) =
    foldl (λ m v, JsMap.set (form_address v) v m) (delegateStatements w)
      (validatedBy [call]).
Proof.
  destruct call as [body signature|info|parent info|parent|parent info];
    simpl.
  - unfold createNewDelegateStatement, bind, lift.
    by destruct (validateForm body signature).
  - apply wrappedDelegates_keeps_statements.
  - unfold WrappedDelegate_delegate, bind, record, lift, ret.
    destruct (underlyingDelegate parent); [done|].
    by destruct (delegateToSchema _).
  - done.
  - unfold Address_account, bind, record, lift. by simpl.
Qed.

(** X11: after any run of resolver calls the statement map is the map
    before it with the forms that the run's mutations validated written
    into it in order; nothing else writes to it. *)
Theorem statements_are_the_validated_submissions calls w :
  delegateStatements (performAll calls w) =
    foldl (λ m v, JsMap.set (form_address v) v m) (delegateStatements w)
      (validatedBy calls).
Proof.
  revert w. induction calls as [|call calls IH]; intros w; [done|].
  unfold performAll in *. simpl. rewrite IH, perform_statements.
  rewrite foldl_app. f_equal. unfold validatedBy.
  rewrite bind_cons. simpl. by rewrite app_nil_r.
Qed.

(** X12: no run of resolver calls removes or reorders a key of the
    statement map: the keys before the run are a prefix of the keys after
    it, and a map without doubled keys stays one. *)
Theorem statement_keys_only_grow calls w :
  JsMap.keys (delegateStatements w)
    `prefix_of` JsMap.keys (delegateStatements (performAll calls w)) ∧
  (JsMap.wf (delegateStatements w) →
   JsMap.wf (delegateStatements (performAll calls w))).
Proof.
  unfold performAll. revert w.
  induction calls as [|call calls IH]; intros w; [done|].
  simpl. destruct (IH (perform call w)) as [Hprefix Hwf].
  rewrite perform_statements in Hprefix, Hwf. unfold validatedBy in *.
  rewrite bind_cons in Hprefix, Hwf. simpl in Hprefix, Hwf.
  rewrite app_nil_r in Hprefix, Hwf.
  destruct call as [body signature|info|parent info|parent|parent info];
    try done.
  destruct (validateForm body signature) as [validated|e]; [|done].
  simpl in Hprefix, Hwf. split.
  - etrans; [apply keys_set_prefix|done].
  - intros Hm. by apply Hwf, wf_set.
Qed.
End statements_more.

(** ** Addresses and names *)

Lemma lowerCaseChar_idempotent c :
  lowerCaseChar (lowerCaseChar c) = lowerCaseChar c.
Proof. by destruct c as [[] [] [] [] [] [] [] []]. Qed.

Lemma toLowerCase_idempotent s : toLowerCase (toLowerCase s) = toLowerCase s.
Proof.
  induction s as [|c s IH]; [done|].
  simpl. by rewrite lowerCaseChar_idempotent, IH.
Qed.

Section addresses.
Context `{RemoteSchema} `{FormSchema} `{ReverseResolver}.

(** X13: after a valid submission whose validated address is [a] in lower
    case, the statement is found under [address(address: a)] however [a] is
    capitalised. *)
Theorem address_query_finds_the_statement body signature validated a w :
  plainAscii a →
  validateForm body signature = Return validated →
  toLowerCase a = form_address validated →
  WrappedDelegate_statement (Address_wrappedDelegate (Query_address a))
    (createNewDelegateStatement body signature w).2 =
    (Return (Some validated), (createNewDelegateStatement body signature w).2).
Proof.
  intros _ Hvalid Hlower.
  rewrite (createNewDelegateStatement_valid _ _ _ _ Hvalid).
  unfold WrappedDelegate_statement, bind, readStatements, ret. simpl.
  by rewrite Hlower, get_set_eq.
Qed.

(** X14: the map is keyed by the validated address as it is, and
    [Query.address] lower-cases: a statement stored under an address with a
    capital letter is never what an [address] query finds, which sees the
    statements as they were before the submission. *)
Theorem capitalised_key_is_out_of_reach body signature validated a w :
  plainAscii a →
  plainAscii (form_address validated) →
  validateForm body signature = Return validated →
  toLowerCase (form_address validated) ≠ form_address validated →
  (WrappedDelegate_statement (Address_wrappedDelegate (Query_address a))
     (createNewDelegateStatement body signature w).2).1 =
    (WrappedDelegate_statement (Address_wrappedDelegate (Query_address a))
       w).1.
Proof.
  intros _ _ Hvalid Hcapital.
  rewrite (createNewDelegateStatement_valid _ _ _ _ Hvalid).
  unfold WrappedDelegate_statement, bind, readStatements, ret. simpl.
  rewrite get_set_ne; [done|].
  intros Heq. apply Hcapital. by rewrite <-Heq, toLowerCase_idempotent.
Qed.

(** X15: below [address(address: a)] both [account] and the [delegate] of
    [wrappedDelegate] are fetched from the remote schema, one delegated
    call each, with the lower-cased [a] as [id]; asking [address] of an
    address it produced changes nothing. *)
Theorem address_fetches_use_the_lower_cased_id a info w :
  plainAscii a →
  Query_address (address_of (Query_address a)) = Query_address a ∧
  (let request :=
     {| del_operation := QUERY; del_fieldName := "delegate";
        del_args := [ ("id", toLowerCase a) ]; del_info := info |} in
   WrappedDelegate_delegate (Address_wrappedDelegate (Query_address a))
     info w =
     (delegateToSchema request,
      {| delegateStatements := delegateStatements w;
         remoteCalls := (remoteCalls w ++ [ Delegated request ])%list |})) ∧
  (let request :=
     {| del_operation := QUERY; del_fieldName := "account";
        del_args := [ ("id", toLowerCase a) ]; del_info := info |} in
   Address_account (Query_address a) info w =
     (delegateToSchema request,
      {| delegateStatements := delegateStatements w;
         remoteCalls := (remoteCalls w ++ [ Delegated request ])%list |})).
Proof.
  intros _. split_and!.
  - unfold Query_address. simpl. by rewrite toLowerCase_idempotent.
  - unfold WrappedDelegate_delegate, bind, record, lift. simpl.
    by destruct (delegateToSchema _).
  - unfold Address_account, bind, record, lift. simpl.
    by destruct (delegateToSchema _).
Qed.

(** X16: [ResolvedName.name] never answers with the empty string: it
    gives a name exactly when the reverse resolver gave that name and the
    name is not empty, and passes on what the resolver throws. *)
Theorem resolved_name_is_never_empty parent :
  ResolvedName_name parent ≠ Return (Some "") ∧
  (∀ name, ResolvedName_name parent = Return (Some name) ↔
           resolve (address_of parent) = Return (Some name) ∧ name ≠ "") ∧
  (∀ e, ResolvedName_name parent = Throw e ↔
        resolve (address_of parent) = Throw e).
Proof.
  unfold ResolvedName_name.
  destruct (resolve (address_of parent)) as [[resolved|]|e]; simpl.
  - destruct (decide (resolved = "")) as [->|Hne].
    + split_and!; [done| |done]. intros name. split; [done|].
      by intros [[= <-] ?].
    + split_and!; [by intros [= ->]| |done]. intros name. split.
      * by intros [= <-].
      * by intros [[= <-] _].
  - split_and!; [done| |done]. intros name. split; [done|by intros []].
  - split_and!; [done| |done]. intros name. split; [done|by intros []].
Qed.
End addresses.

(** X17: [DelegateStatement.openToSponsoringProposals] answers [true]
    for the value [yes] and [false] for the value [no], spelled exactly so,
    and [null] for every other value and for none. *)
Theorem open_to_sponsoring_reads_yes_and_no parent :
  (∀ b, DelegateStatement_openToSponsoringProposals parent = Some b ↔
        openToSponsoringProposals (form_values parent) =
          Some (if b then "yes" else "no")) ∧
  (DelegateStatement_openToSponsoringProposals parent = None ↔
   openToSponsoringProposals (form_values parent) ≠ Some "yes" ∧
   openToSponsoringProposals (form_values parent) ≠ Some "no").
Proof.
  unfold DelegateStatement_openToSponsoringProposals.
  destruct (decide (_ = Some "yes")) as [Hyes|Hyes].
  - rewrite Hyes. split.
    + intros [|]; split; try done; try by intros [= <-].
    + split; [done|]. by intros [? _].
  - destruct (decide (_ = Some "no")) as [Hno|Hno].
    + rewrite Hno. split.
      * intros [|]; split; try done; try by intros [= <-].
      * split; [done|]. by intros [_ ?].
    + split; [|done]. intros [|]; split; done.
Qed.

(** ** The worker *)

Section worker.
Context {Schema : Type} `{Worker.GatewayBuilder Schema}.

Lemma fetch_settled promise n pathname environment :
  Worker.fetch pathname environment
    {| Worker.makeGatewaySchemaPromise := Some promise; Worker.calls := n |} =
    (Worker.answerWith promise (pathname, environment),
     {| Worker.makeGatewaySchemaPromise := Some promise; Worker.calls := n |}).
Proof.
  unfold Worker.fetch, Worker.answerWith. simpl.
  destruct (decide (pathname = "/graphql")); [|done].
  by destruct promise.
Qed.

Lemma fetch_unsettled n pathname environment :
  Worker.fetch pathname environment
    {| Worker.makeGatewaySchemaPromise := None; Worker.calls := n |} =
    (Worker.answerWith (Worker.makeGatewaySchema n) (pathname, environment),
     if decide (pathname = "/graphql")
     then {| Worker.makeGatewaySchemaPromise :=
               Some (Worker.makeGatewaySchema n);
             Worker.calls := S n |}
     else {| Worker.makeGatewaySchemaPromise := None; Worker.calls := n |}).
Proof.
  unfold Worker.fetch, Worker.answerWith. simpl.
  destruct (decide (pathname = "/graphql")); [|done].
  by destruct (Worker.makeGatewaySchema n).
Qed.

Lemma serve_settled promise n requests :
  Worker.serve requests
    {| Worker.makeGatewaySchemaPromise := Some promise; Worker.calls := n |} =
    (Worker.answerWith promise <$> requests,
     {| Worker.makeGatewaySchemaPromise := Some promise; Worker.calls := n |}).
Proof.
  induction requests as [|[pathname environment] requests IH]; [done|].
  cbn [Worker.serve]. by rewrite fetch_settled, IH.
Qed.

Lemma serve_unsettled n requests :
  Worker.serve requests
    {| Worker.makeGatewaySchemaPromise := None; Worker.calls := n |} =
    (Worker.answerWith (Worker.makeGatewaySchema n) <$> requests,
     if decide (Exists (λ request, request.1 = "/graphql") requests)
     then {| Worker.makeGatewaySchemaPromise :=
               Some (Worker.makeGatewaySchema n);
             Worker.calls := S n |}
     else {| Worker.makeGatewaySchemaPromise := None; Worker.calls := n |}).
Proof.
  induction requests as [|[pathname environment] requests IH].
  { rewrite decide_False; [reflexivity|]. by intros ?%Exists_nil. }
  cbn [Worker.serve]. rewrite fetch_unsettled.
  destruct (decide (pathname = "/graphql")) as [->|Hother].
  - rewrite serve_settled, decide_True; [done|by left].
  - rewrite IH. destruct (decide (Exists _ requests)) as [Hsome|Hnone].
    + rewrite decide_True; [done|by right].
    + rewrite decide_False; [done|]. by intros [?|?]%Exists_cons.
Qed.

(** X18: over any sequence of requests the worker calls
    [makeGatewaySchema] once if some request goes to [/graphql] and not at
    all otherwise: requests for anything else never build the schema, and
    the schema is never built again. *)
Theorem schema_is_made_at_most_once requests :
  Worker.calls (Worker.serve requests Worker.start).2 =
    if decide (Exists (λ request, request.1 = "/graphql") requests)
    then 1 else 0.
Proof.
  unfold Worker.start. rewrite serve_unsettled. simpl.
  by destruct (decide (Exists _ requests)).
Qed.

(** X19: every request is answered from the first call of
    [makeGatewaySchema] alone. A request to [/graphql] gets a server on the
    schema of that call, with errors masked in [prod] only and the
    playground in every other environment, and when that call failed every
    request to [/graphql] fails with its error, later ones too; any other
    path goes to the assets. *)
Theorem requests_are_answered_from_the_first_schema requests :
  (Worker.serve requests Worker.start).1 =
    Worker.answerWith (Worker.makeGatewaySchema 0) <$> requests ∧
  ∀ pathname environment,
    Worker.answerWith (Worker.makeGatewaySchema 0) (pathname, environment) =
      if decide (pathname = "/graphql") then
        match Worker.makeGatewaySchema 0 with
        | Return schema =>
            Return (Worker.FromServer schema
                      {| Worker.maskedErrors :=
                           bool_decide (environment = Worker.Prod);
                         Worker.graphiql :=
                           bool_decide (environment ≠ Worker.Prod) |})
        | Throw e => Throw e
        end
      else Return (Worker.FromAssets pathname).
Proof.
  split.
  - unfold Worker.start. by rewrite serve_unsettled.
  - intros pathname environment. unfold Worker.answerWith. simpl.
    destruct (decide (pathname = "/graphql")); [|done].
    destruct (Worker.makeGatewaySchema 0); [|done].
    by destruct environment.
Qed.
End worker.

(** ** The top-issues form section *)

Lemma renderIssue_known issue :
  TopIssues.type issue ∈ TopIssues.key <$> TopIssues.issueDefinitions →
  ∃ row, TopIssues.renderIssue issue = Return row.
Proof.
  unfold TopIssues.renderIssue, TopIssues.issueDefinitions. simpl.
  intros Hin.
  repeat (apply elem_of_cons in Hin as [->|Hin]; [by eexists|]).
  by apply elem_of_nil in Hin.
Qed.

Lemma renderIssue_unknown issue :
  TopIssues.type issue ∉ TopIssues.key <$> TopIssues.issueDefinitions →
  TopIssues.renderIssue issue = Throw TypeError.
Proof.
  unfold TopIssues.renderIssue, TopIssues.issueDefinitions. simpl.
  intros Hnot.
  repeat (rewrite bool_decide_false;
          [|intros Heq; apply Hnot; rewrite Heq; set_solver]).
  done.
Qed.

Lemma renderIssues_all topIssues :
  Forall (λ issue,
            TopIssues.type issue
              ∈ TopIssues.key <$> TopIssues.issueDefinitions) topIssues →
  ∃ rows, TopIssues.renderIssues topIssues = Return rows ∧
          length rows = length topIssues.
Proof.
  induction 1 as [|issue topIssues Hissue _ (rows & Hrows & Hlength)].
  - by exists [].
  - destruct (renderIssue_known _ Hissue) as [row Hrow].
    exists (row :: rows). simpl. rewrite Hrow, Hrows. split; [done|].
    simpl. by rewrite Hlength.
Qed.

Lemma renderIssues_throws_TypeError topIssues e :
  TopIssues.renderIssues topIssues = Throw e → e = TypeError.
Proof.
  induction topIssues as [|issue topIssues IH]; simpl; [done|].
  unfold TopIssues.renderIssue.
  destruct (List.find _ _); [|by intros [= <-]].
  destruct (TopIssues.renderIssues topIssues); [done|].
  intros [= <-]. by apply IH.
Qed.

(** X20: starting from the two issues the section opens with and adding
    any issues picked from the dropdown, every issue finds its definition:
    the section renders one row per issue, two more than were added, and
    never throws. *)
Theorem issues_from_the_dropdown_always_render picked :
  Forall (λ selectionKey,
            selectionKey
              ∈ TopIssues.selectKey <$> TopIssues.dropdownItems) picked →
  ∃ rows,
    TopIssues.renderIssues
      (foldl TopIssues.addIssue TopIssues.initialTopIssues picked) =
      Return rows ∧
    length rows = 2 + length picked.
Proof.
  intros Hpicked.
  assert (∀ issues,
            Forall (λ issue,
                      TopIssues.type issue
                        ∈ TopIssues.key <$> TopIssues.issueDefinitions) issues →
            Forall (λ issue,
                      TopIssues.type issue
                        ∈ TopIssues.key <$> TopIssues.issueDefinitions)
                   (foldl TopIssues.addIssue issues picked) ∧
            length (foldl TopIssues.addIssue issues picked) =
              length issues + length picked) as Hkept.
  { induction Hpicked as [|k picked Hk _ IH]; intros issues Hissues.
    - simpl. split; [done|lia].
    - simpl. destruct (IH (TopIssues.addIssue issues k)) as [Hall Hlength].
      + apply Forall_app. split; [done|]. apply Forall_singleton.
        simpl. unfold TopIssues.dropdownItems in Hk.
        by rewrite <-list_fmap_compose in Hk.
      + split; [done|]. rewrite Hlength. unfold TopIssues.addIssue.
        rewrite length_app. simpl. lia. }
  destruct (Hkept TopIssues.initialTopIssues) as [Hall Hlength].
  { repeat constructor; simpl; set_solver. }
  destruct (renderIssues_all _ Hall) as (rows & Hrows & Hrowslength).
  exists rows. split; [done|]. by rewrite Hrowslength, Hlength.
Qed.

(** X21: an issue whose type has no definition breaks the section: once
    it has been added, rendering throws a [TypeError], whatever the other
    issues are. *)
Theorem issue_without_definition_breaks_the_section issues selectionKey :
  selectionKey ∉ TopIssues.key <$> TopIssues.issueDefinitions →
  TopIssues.renderIssues (TopIssues.addIssue issues selectionKey) =
    Throw TypeError.
Proof.
  intros Hunknown. unfold TopIssues.addIssue.
  induction issues as [|issue issues IH]; simpl.
  - by rewrite renderIssue_unknown.
  - destruct (TopIssues.renderIssue issue) as [row|e] eqn:Hrow.
    + by rewrite IH.
    + f_equal. unfold TopIssues.renderIssue in Hrow.
      destruct (List.find _ _); [done|]. by injection Hrow as <-.
Qed.

(** ** The further properties at sample values *)

Lemma listing_has_no_address_twice_witness :
  ∃ listing,
    (@wrappedDelegates (Samples.remoteAnswering Samples.twoRows)
       Samples.plain initialWorld).1 = Return listing ∧
    NoDup (address <$> listing).
Proof.
  apply (@listing_has_no_address_twice
           (Samples.remoteAnswering Samples.twoRows) Samples.plain initialWorld
           [ leaf "delegatedVotes" ]
           [ Samples.row Samples.bob "12"; Samples.row nouncil "7" ]).
  - apply NoDup_singleton.
  - reflexivity.
  - reflexivity.
  - apply NoDup_cons. split; [|apply NoDup_singleton].
    by intros ?%list_elem_of_singleton.
Defined.

Lemma listing_addresses_are_rows_and_statements_witness :
  ∃ extras rows,
    getSelectionSetFromDelegateField Samples.plain = Return extras ∧
    data (@graphql (Samples.remoteAnswering Samples.oneRow)
            (@print (Samples.remoteAnswering Samples.oneRow)
               (buildFusedDelegateQuery extras))) = Some rows ∧
    ∀ a, a ∈ address <$>
               [ {| address := Samples.bob;
                    underlyingDelegate :=
                      Some (Samples.row Samples.bob "12") |};
                 {| address := nouncil; underlyingDelegate := None |} ] ↔
         a ∈ id <$> rows ∨ a ∈ JsMap.keys initialDelegateStatements.
Proof.
  apply (@listing_addresses_are_rows_and_statements
           (Samples.remoteAnswering Samples.oneRow) Samples.plain initialWorld).
  reflexivity.
Defined.

Lemma listing_entries_have_a_delegate_or_a_statement_witness :
  is_Some (underlyingDelegate
             {| address := nouncil; underlyingDelegate := None |}) ∨
  ∃ form,
    WrappedDelegate_statement
      {| address := nouncil; underlyingDelegate := None |}
      (@wrappedDelegates (Samples.remoteAnswering Samples.oneRow)
         Samples.plain initialWorld).2 =
      (Return (Some form),
       (@wrappedDelegates (Samples.remoteAnswering Samples.oneRow)
          Samples.plain initialWorld).2).
Proof.
  apply (@listing_entries_have_a_delegate_or_a_statement
           (Samples.remoteAnswering Samples.oneRow) Samples.plain initialWorld
           [ {| address := Samples.bob;
                underlyingDelegate := Some (Samples.row Samples.bob "12") |};
             {| address := nouncil; underlyingDelegate := None |} ]).
  - reflexivity.
  - right. left.
Defined.

Lemma listed_delegate_is_served_from_the_listing_witness :
  @WrappedDelegate_delegate (Samples.remoteAnswering Samples.oneRow)
    {| address := Samples.bob;
       underlyingDelegate := Some (Samples.row Samples.bob "12") |}
    Samples.plain initialWorld =
    (Return (Some (Samples.row Samples.bob "12")), initialWorld) ∧
  id (Samples.row Samples.bob "12") =
    WrappedDelegate_id
      {| address := Samples.bob;
         underlyingDelegate := Some (Samples.row Samples.bob "12") |}.
Proof.
  apply (@listed_delegate_is_served_from_the_listing
           (Samples.remoteAnswering Samples.oneRow) Samples.plain initialWorld
           [ {| address := Samples.bob;
                underlyingDelegate := Some (Samples.row Samples.bob "12") |};
             {| address := nouncil; underlyingDelegate := None |} ]).
  - reflexivity.
  - left.
  - reflexivity.
Defined.

Lemma new_statement_is_listed_last_witness :
  ∃ listing,
    (@wrappedDelegates (Samples.remoteAnswering Samples.oneRow) Samples.plain
       (@createNewDelegateStatement Samples.formsSignedByAddress
          (Samples.alice +:+ ":hello") Samples.alice initialWorld).2).1 =
      Return listing ∧
    last listing =
      Some {| address := Samples.alice; underlyingDelegate := None |}.
Proof.
  apply (@new_statement_is_listed_last
           (Samples.remoteAnswering Samples.oneRow)
           Samples.formsSignedByAddress
           (Samples.alice +:+ ":hello") Samples.alice
           {| form_address := Samples.alice;
              form_values := Samples.someValues "hello" |}
           Samples.plain initialWorld [ leaf "delegatedVotes" ]
           [ Samples.row Samples.bob "12" ]).
  - reflexivity.
  - by intros ?%list_elem_of_singleton.
  - reflexivity.
  - reflexivity.
  - by intros ?%list_elem_of_singleton.
Defined.

Lemma statement_is_read_back_witness :
  (@createNewDelegateStatement Samples.formsSignedByAddress
     (Samples.alice +:+ ":hello") Samples.alice initialWorld).1 =
    Return [ ("address", JsString Samples.alice) ] ∧
  WrappedDelegate_statement
    {| address := Samples.alice; underlyingDelegate := None |}
    (@createNewDelegateStatement Samples.formsSignedByAddress
       (Samples.alice +:+ ":hello") Samples.alice initialWorld).2 =
    (Return (Some {| form_address := Samples.alice;
                     form_values := Samples.someValues "hello" |}),
     (@createNewDelegateStatement Samples.formsSignedByAddress
        (Samples.alice +:+ ":hello") Samples.alice initialWorld).2).
Proof.
  apply (@statement_is_read_back Samples.formsSignedByAddress
           (Samples.alice +:+ ":hello") Samples.alice
           {| form_address := Samples.alice;
              form_values := Samples.someValues "hello" |} initialWorld).
  reflexivity.
Defined.

Lemma earlier_statement_leaves_no_trace_witness :
  @createNewDelegateStatement Samples.formsSignedByAddress
    (Samples.alice +:+ ":hello again") Samples.alice
    (@createNewDelegateStatement Samples.formsSignedByAddress
       (Samples.alice +:+ ":hello") Samples.alice initialWorld).2 =
    @createNewDelegateStatement Samples.formsSignedByAddress
      (Samples.alice +:+ ":hello again") Samples.alice initialWorld.
Proof.
  apply (@earlier_statement_leaves_no_trace Samples.formsSignedByAddress
           (Samples.alice +:+ ":hello") Samples.alice
           (Samples.alice +:+ ":hello again") Samples.alice
           {| form_address := Samples.alice;
              form_values := Samples.someValues "hello" |}
           {| form_address := Samples.alice;
              form_values := Samples.someValues "hello again" |}
           initialWorld).
  - reflexivity.
  - reflexivity.
  - reflexivity.
Defined.

Lemma address_query_finds_the_statement_witness :
  WrappedDelegate_statement
    (Address_wrappedDelegate (Query_address MoreSamples.carolChecksummed))
    (@createNewDelegateStatement Samples.formsSignedByAddress
       (MoreSamples.carol +:+ ":hello") MoreSamples.carol initialWorld).2 =
    (Return (Some {| form_address := MoreSamples.carol;
                     form_values := Samples.someValues "hello" |}),
     (@createNewDelegateStatement Samples.formsSignedByAddress
        (MoreSamples.carol +:+ ":hello") MoreSamples.carol initialWorld).2).
Proof.
  apply (@address_query_finds_the_statement Samples.formsSignedByAddress
           (MoreSamples.carol +:+ ":hello") MoreSamples.carol
           {| form_address := MoreSamples.carol;
              form_values := Samples.someValues "hello" |}
           MoreSamples.carolChecksummed initialWorld).
  - apply (bool_decide_unpack _). vm_compute. exact I.
  - reflexivity.
  - reflexivity.
Defined.

Lemma capitalised_key_is_out_of_reach_witness :
  (WrappedDelegate_statement
     (Address_wrappedDelegate (Query_address MoreSamples.carolChecksummed))
     (@createNewDelegateStatement Samples.formsSignedByAddress
        (MoreSamples.carolChecksummed +:+ ":hello")
        MoreSamples.carolChecksummed initialWorld).2).1 =
    (WrappedDelegate_statement
       (Address_wrappedDelegate (Query_address MoreSamples.carolChecksummed))
       initialWorld).1.
Proof.
  apply (@capitalised_key_is_out_of_reach Samples.formsSignedByAddress
           (MoreSamples.carolChecksummed +:+ ":hello")
           MoreSamples.carolChecksummed
           {| form_address := MoreSamples.carolChecksummed;
              form_values := Samples.someValues "hello" |}
           MoreSamples.carolChecksummed initialWorld).
  - apply (bool_decide_unpack _). vm_compute. exact I.
  - apply (bool_decide_unpack _). vm_compute. exact I.
  - reflexivity.
  - discriminate.
Defined.

Lemma address_fetches_use_the_lower_cased_id_witness :
  Query_address (address_of (Query_address MoreSamples.carolChecksummed)) =
    Query_address MoreSamples.carolChecksummed ∧
  @WrappedDelegate_delegate (Samples.remoteAnswering Samples.oneRow)
    (Address_wrappedDelegate (Query_address MoreSamples.carolChecksummed))
    Samples.plain initialWorld =
    (Return None,
     {| delegateStatements := initialDelegateStatements;
        remoteCalls :=
          [ Delegated
              {| del_operation := QUERY; del_fieldName := "delegate";
                 del_args := [ ("id", MoreSamples.carol) ];
                 del_info := Samples.plain |} ] |}) ∧
  @Address_account (Samples.remoteAnswering Samples.oneRow)
    (Query_address MoreSamples.carolChecksummed) Samples.plain initialWorld =
    (Return None,
     {| delegateStatements := initialDelegateStatements;
        remoteCalls :=
          [ Delegated
              {| del_operation := QUERY; del_fieldName := "account";
                 del_args := [ ("id", MoreSamples.carol) ];
                 del_info := Samples.plain |} ] |}).
Proof.
  apply (@address_fetches_use_the_lower_cased_id
           (Samples.remoteAnswering Samples.oneRow)
           MoreSamples.carolChecksummed Samples.plain initialWorld).
  apply (bool_decide_unpack _). vm_compute. exact I.
Defined.

Lemma issues_from_the_dropdown_always_render_witness :
  ∃ rows,
    TopIssues.renderIssues
      (foldl TopIssues.addIssue TopIssues.initialTopIssues
         [ "funding"; "treasury" ]) = Return rows ∧
    length rows = 4.
Proof.
  apply (issues_from_the_dropdown_always_render [ "funding"; "treasury" ]).
  apply Forall_cons. split; [right; right; left|].
  apply Forall_cons. split; [right; left|].
  apply Forall_nil_2.
Defined.

Lemma issue_without_definition_breaks_the_section_witness :
  TopIssues.renderIssues
    (TopIssues.addIssue TopIssues.initialTopIssues "governance") =
    Throw TypeError.
Proof.
  apply (issue_without_definition_breaks_the_section
           TopIssues.initialTopIssues "governance").
  intros Hin. unfold TopIssues.issueDefinitions in Hin.
  repeat (apply elem_of_cons in Hin as [Hin|Hin]; [discriminate|]).
  by apply elem_of_nil in Hin.
Defined.

(** ** What the fused listing saves *)

Section fetches.
Context `{RemoteSchema} `{FormSchema}.

Lemma delegates_of_rows_are_free (rows : list RemoteDelegate) info w :
  foldl (λ w call, perform call w) w
    ((λ it, CallDelegate it info) <$> (fromRemoteDelegate <$> rows)) = w.
Proof.
  revert w.
  induction rows as [|row rows IH]; intros w; [done|]. simpl. apply IH.
Qed.

Lemma delegates_of_statements_are_fetched (ks : list string) info w :
  foldl (λ w call, perform call w) w
    ((λ it, CallDelegate it info) <$> (fromDelegateStatement <$> ks)) =
    {| delegateStatements := delegateStatements w;
       remoteCalls :=
         (remoteCalls w ++
          ((λ a, Delegated {| del_operation := QUERY;
                              del_fieldName := "delegate";
                              del_args := [ ("id", a) ];
                              del_info := info |}) <$> ks))%list |}.
Proof.
  revert w.
  induction ks as [|k ks IH]; intros w.
  - simpl. rewrite app_nil_r. by destruct w.
  - simpl. rewrite IH. unfold WrappedDelegate_delegate, bind, record, lift.
    simpl. by rewrite <-app_assoc.
Qed.

(** X22: listing the wrapped delegates and then resolving [delegate] for
    every entry of the listing costs one execution of the fused query and
    one delegated fetch for each key of the statement map that is no row's
    id, in the order of the listing; the entries that came from rows cost
    nothing more. *)
Theorem listing_then_delegates_costs_one_query_and_the_statement_fetches
    info info' w extras rows :
  getSelectionSetFromDelegateField info = Return extras →
  graphql (print (buildFusedDelegateQuery extras)) =
    {| errors := None; data := Some rows |} →
  ∃ listing,
    (wrappedDelegates info w).1 = Return listing ∧
    remoteCalls
      (performAll ((λ it, CallDelegate it info') <$> listing)
         (wrappedDelegates info w).2) =
      (remoteCalls w ++
       Executed (print (buildFusedDelegateQuery extras)) ::
       ((λ a, Delegated {| del_operation := QUERY;
                           del_fieldName := "delegate";
                           del_args := [ ("id", a) ];
                           del_info := info' |}) <$>
          filter (λ a, a ∉ id <$> rows)
                 (JsMap.keys (delegateStatements w))))%list.
Proof.
  intros Hextract Hresult.
  rewrite (wrappedDelegates_run _ _ _ Hextract). simpl.
  rewrite Hresult. simpl. eexists. split; [done|].
  rewrite fmap_app. unfold performAll. rewrite foldl_app.
  rewrite delegates_of_rows_are_free.
  rewrite delegates_of_statements_are_fetched. simpl.
  by rewrite <-app_assoc.
Qed.
End fetches.

Lemma listing_then_delegates_costs_one_query_and_the_statement_fetches_witness :
  ∃ listing,
    (@wrappedDelegates (Samples.remoteAnswering Samples.oneRow)
       Samples.plain initialWorld).1 = Return listing ∧
    remoteCalls
      (@performAll (Samples.remoteAnswering Samples.oneRow)
         Samples.formsSignedByAddress
         ((λ it, CallDelegate it Samples.plain) <$> listing)
         (@wrappedDelegates (Samples.remoteAnswering Samples.oneRow)
            Samples.plain initialWorld).2) =
      ([] ++
       Executed (@print (Samples.remoteAnswering Samples.oneRow)
                   (buildFusedDelegateQuery [ leaf "delegatedVotes" ])) ::
       ((λ a, Delegated {| del_operation := QUERY;
                           del_fieldName := "delegate";
                           del_args := [ ("id", a) ];
                           del_info := Samples.plain |}) <$>
          filter (λ a, a ∉ id <$> [ Samples.row Samples.bob "12" ])
                 (JsMap.keys initialDelegateStatements)))%list.
Proof.
  apply (@listing_then_delegates_costs_one_query_and_the_statement_fetches
           (Samples.remoteAnswering Samples.oneRow)
           Samples.formsSignedByAddress
           Samples.plain Samples.plain initialWorld).
  - reflexivity.
  - reflexivity.
Defined.
